(** * opendlv-video-h264-encoder: the acquire / encode / packetize loop

    A shallow embedding of [src/opendlv-video-h264-encoder.cpp].  The
    program is a single [main]; its pieces are embedded under the names
    of the C++ variables they compute ([WIDTH], [GOP], [parameters],
    [sourceFrame], [h264Buffer], ...) and composed again in [main].

    The collaborators that are not part of the program (the cluon
    shared memory, the OD4 session, the openh264 engine) are a [World]
    of oracles; every call to one of them is recorded in a trace of
    [event]s.  A copy that runs past the end of the output buffer is
    followed into the memory behind it.  A read of memory that the
    model does not know (an array of the engine read past its end) is
    the outcome [None] / [Undefined]. *)

From Stdlib Require Import Ascii.
From stdpp Require Import base numbers option list strings gmap.

Local Open Scope Z_scope.

(** ** Machine integers *)

(** [uint32_t]: arithmetic modulo 2^32. *)
Definition wrap_uint32 (z : Z) : Z := z mod 2 ^ 32.

(** [int] (32 bits, two's complement): the value a conversion to [int],
    or an [int] addition, leaves in the register. *)
Definition wrap_int32 (z : Z) : Z := (z + 2 ^ 31) mod 2 ^ 32 - 2 ^ 31.

Definition INT_MIN : Z := - 2 ^ 31.
Definition INT_MAX : Z := 2 ^ 31 - 1.

(** ** [std::stoi] *)

Definition isspace (a : Ascii.ascii) : bool :=
  let n := Z.of_nat (Ascii.nat_of_ascii a) in
  (n =? 32) || ((9 <=? n) && (n <=? 13)).

Definition digit_of (a : Ascii.ascii) : option Z :=
  let n := Z.of_nat (Ascii.nat_of_ascii a) in
  if (48 <=? n) && (n <=? 57) then Some (n - 48) else None.

Fixpoint skip_space (s : string) : string :=
  match s with
  | String a r => if isspace a then skip_space r else s
  | EmptyString => s
  end.

(** The longest prefix of decimal digits; [None] when there is none. *)
Fixpoint read_digits (s : string) (acc : option Z) : option Z :=
  match s with
  | String a r =>
      match digit_of a with
      | Some d => read_digits r (Some (10 * default 0 acc + d))
      | None => acc
      end
  | EmptyString => acc
  end.

(** [std::stoi(s)] in base 10: leading white space, an optional sign,
    digits up to the first other character.  [None] stands for the two
    exceptions ([std::invalid_argument], [std::out_of_range]). *)
Definition stoi (s : string) : option Z :=
  let s := skip_space s in
  let '(neg, s) :=
    match s with
    | String "-"%char r => (true, r)
    | String "+"%char r => (false, r)
    | _ => (false, s)
    end in
  match read_digits s None with
  | None => None
  | Some v =>
      let v := if neg : bool then - v else v in
      if (INT_MIN <=? v) && (v <=? INT_MAX) then Some v else None
  end.

(** ** The command line *)

(** [cluon::getCommandlineArguments] yields a [std::map<string,string>]. *)
Definition count (m : gmap string string) (k : string) : Z :=
  if m !! k is Some _ then 1 else 0.

(** [commandlineArguments[k]]: the empty string for a key that is absent. *)
Definition at_key (m : gmap string string) (k : string) : string :=
  default EmptyString (m !! k).

Definition GOP_DEFAULT : Z := 10.

(** Line 50: [GOP]. *)
Definition GOP (commandlineArguments : gmap string string) : option Z :=
  if bool_decide (String.length (at_key commandlineArguments "gop") ≠ 0%nat)
  then v ← stoi (at_key commandlineArguments "gop"); Some (wrap_uint32 v)
  else Some GOP_DEFAULT.

(** Lines 47 and 48: [WIDTH] and [HEIGHT]. *)
Definition WIDTH (commandlineArguments : gmap string string) : option Z :=
  v ← stoi (at_key commandlineArguments "width"); Some (wrap_uint32 v).

Definition HEIGHT (commandlineArguments : gmap string string) : option Z :=
  v ← stoi (at_key commandlineArguments "height"); Some (wrap_uint32 v).

Definition VERBOSE (commandlineArguments : gmap string string) : bool :=
  bool_decide (count commandlineArguments "verbose" ≠ 0).

(** ** openh264 types, as far as the program touches them *)

Inductive RC_MODES :=
  RC_QUALITY_MODE | RC_BITRATE_MODE | RC_BUFFERBASED_MODE
| RC_TIMESTAMP_MODE | RC_BITRATE_MODE_POST_SKIP | RC_OFF_MODE.

Inductive EParameterSetStrategy :=
  CONSTANT_ID | INCREASING_ID | SPS_LISTING | SPS_LISTING_AND_PPS_INCREASING
| SPS_PPS_LISTING.

Inductive SliceModeEnum :=
  SM_SINGLE_SLICE | SM_FIXEDSLCNUM_SLICE | SM_RASTER_SLICE
| SM_SIZELIMITED_SLICE | SM_RESERVED.

Inductive EVideoFrameType :=
  videoFrameTypeInvalid | videoFrameTypeIDR | videoFrameTypeI
| videoFrameTypeP | videoFrameTypeSkip | videoFrameTypeIPMixed.

#[export] Instance EVideoFrameType_eq_dec : EqDecision EVideoFrameType.
Proof. solve_decision. Defined.

Definition cmResultSuccess : Z := 0.
Definition WELS_LOG_QUIET : Z := 0.
Definition WELS_LOG_INFO : Z := 4.

Record SSliceArgument := {
  uiSliceMode : SliceModeEnum;
  uiSliceNum : Z
}.

Record SSpatialLayerConfig := {
  iVideoWidth : Z;
  iVideoHeight : Z;
  fFrameRate : Z;
  iSpatialBitrate : Z;
  iMaxSpatialBitrate : Z;
  sSliceArgument : SSliceArgument;
  (* left as [GetDefaultParams] filled them *)
  uiProfileIdc : Z;
  uiLevelIdc : Z;
  iDLayerQp : Z
}.

(** [SEncParamExt].  The two [float] fields only ever hold the integer
    literal 20 or an engine default, so they are carried as [Z]. *)
Record SEncParamExt := {
  fMaxFrameRate : Z;
  iPicWidth : Z;
  iPicHeight : Z;
  iTargetBitrate : Z;
  iMaxBitrate : Z;
  iRCMode : RC_MODES;
  iTemporalLayerNum : Z;
  iSpatialLayerNum : Z;
  bEnableAdaptiveQuant : bool;
  bEnableBackgroundDetection : bool;
  bEnableDenoise : bool;
  bEnableFrameSkip : bool;
  bEnableLongTermReference : bool;
  iLtrMarkPeriod : Z;
  uiIntraPeriod : Z;
  eSpsPpsIdStrategy : EParameterSetStrategy;
  bPrefixNalAddingCtrl : bool;
  iLoopFilterDisableIdc : Z;
  iEntropyCodingModeFlag : Z;
  iMultipleThreadIdc : Z;
  sSpatialLayers : nat → SSpatialLayerConfig;
  (* left as [GetDefaultParams] filled them *)
  iUsageType : Z;
  iComplexityMode : Z;
  iNumRefFrame : Z;
  bEnableSceneChangeDetect : bool
}.

(** [parameters.sSpatialLayers[0] = l0]: the array has
    [MAX_SPATIAL_LAYER_NUM] entries in the engine and is carried as a
    function of the index. *)
Definition set_layer0 (l0 : SSpatialLayerConfig)
    (ls : nat → SSpatialLayerConfig) : nat → SSpatialLayerConfig :=
  λ i, if bool_decide (i = 0%nat) then l0 else ls i.

(** Lines 67-101: the block that fills [parameters], starting from what
    [encoder->GetDefaultParams] wrote ([defaults]). *)
Definition parameters (WIDTH HEIGHT GOP : Z) (defaults : SEncParamExt)
    : SEncParamExt :=
  let fMaxFrameRate' := 20 in
  let iPicWidth' := wrap_int32 WIDTH in
  let iPicHeight' := wrap_int32 HEIGHT in
  let iTargetBitrate' := 2500000 in
  let iMaxBitrate' := 5000000 in
  {| fMaxFrameRate := fMaxFrameRate';
     iPicWidth := iPicWidth';
     iPicHeight := iPicHeight';
     iTargetBitrate := iTargetBitrate';
     iMaxBitrate := iMaxBitrate';
     iRCMode := RC_QUALITY_MODE;
     iTemporalLayerNum := 1;
     iSpatialLayerNum := 1;
     bEnableAdaptiveQuant := true;
     bEnableBackgroundDetection := true;
     bEnableDenoise := false;
     bEnableFrameSkip := false;
     bEnableLongTermReference := false;
     iLtrMarkPeriod := 30;
     uiIntraPeriod := GOP;
     eSpsPpsIdStrategy := CONSTANT_ID;
     bPrefixNalAddingCtrl := false;
     iLoopFilterDisableIdc := 0;
     iEntropyCodingModeFlag := 0;
     iMultipleThreadIdc := 1;
     sSpatialLayers :=
       set_layer0
         (let l0 := sSpatialLayers defaults 0%nat in
                {| iVideoWidth := iPicWidth';
                   iVideoHeight := iPicHeight';
                   fFrameRate := fMaxFrameRate';
                   iSpatialBitrate := iTargetBitrate';
                   iMaxSpatialBitrate := iMaxBitrate';
                   sSliceArgument :=
                     {| uiSliceMode := SM_SIZELIMITED_SLICE;
                        uiSliceNum := 1 |};
                   uiProfileIdc := uiProfileIdc l0;
                   uiLevelIdc := uiLevelIdc l0;
                   iDLayerQp := iDLayerQp l0 |})
         (sSpatialLayers defaults);
     iUsageType := iUsageType defaults;
     iComplexityMode := iComplexityMode defaults;
     iNumRefFrame := iNumRefFrame defaults;
     bEnableSceneChangeDetect := bEnableSceneChangeDetect defaults |}.

(** ** The raw frame handed to the encoder *)

Inductive EVideoFormatType := videoFormatI420 | videoFormatOther.

(** [SSourcePicture].  [pData] holds byte offsets from
    [sharedMemory->data()]; [None] is the null pointer [memset] left. *)
Record SSourcePicture := {
  iColorFormat : EVideoFormatType;
  iStride : list Z;
  pData : list (option Z);
  src_iPicWidth : Z;
  src_iPicHeight : Z;
  uiTimeStamp : Z
}.

(** Line 137: the offset of the third plane, in [uint32_t] arithmetic. *)
Definition v_plane_offset (WIDTH HEIGHT : Z) : Z :=
  wrap_uint32 (wrap_uint32 (WIDTH * HEIGHT)
               + Z.shiftr (wrap_uint32 (WIDTH * HEIGHT)) 2).

(** Lines 125-137. *)
Definition sourceFrame (WIDTH HEIGHT : Z) : SSourcePicture :=
  {| iColorFormat := videoFormatI420;
     src_iPicWidth := wrap_int32 WIDTH;
     src_iPicHeight := wrap_int32 HEIGHT;
     iStride := [wrap_int32 WIDTH; wrap_int32 (WIDTH / 2);
                 wrap_int32 (WIDTH / 2); 0];
     pData := [Some 0; Some (wrap_uint32 (WIDTH * HEIGHT));
               Some (v_plane_offset WIDTH HEIGHT); None];
     uiTimeStamp := 0 |}.

(** ** What the encoder returns *)

(** [SLayerBSInfo]: [pNalLengthInByte] and [pBsBuf] point into memory of
    the engine; each is carried as the array that starts at the pointer
    (the empty list for the null pointer [memset] left). *)
Record SLayerBSInfo := {
  iNalCount : Z;
  pNalLengthInByte : list Z;
  pBsBuf : list Byte.byte
}.

(** [SFrameBSInfo]: [sLayerInfo] is an array of [MAX_LAYER_NUM_OF_FRAME]
    entries in the engine's header; it is carried as the list of the
    entries that the engine filled (see [sLayerInfo_at] for the
    others). *)
Record SFrameBSInfo := {
  iLayerNum : Z;
  sLayerInfo : list SLayerBSInfo;
  eFrameType : EVideoFrameType
}.

(** [opendlv::proxy::ImageReading]. *)
Record ImageReading := {
  format : string;
  width : Z;
  height : Z;
  data : list Byte.byte
}.

(** ** The trace of calls to the collaborators *)

Inductive message :=
| MsgUsage
| MsgAttached
| MsgAttachFailed (name : string)
| MsgCreateFailed
| MsgInitFailed
| MsgSkip
| MsgEncodeFailed (result : Z).

Inductive event :=
| EvCerr (m : message)
| EvClog (m : message)
| EvAttach (name : string)
| EvValid (b : bool)
| EvCreateEncoder (ok : bool)
| EvSetTraceLevel (logLevel : Z)
| EvGetDefaultParams
| EvInitializeExt (p : SEncParamExt)
| EvOD4Session (cid : Z)
| EvIsRunning (b : bool)
| EvWait
| EvLock
| EvEncodeFrame (src : SSourcePicture)
| EvUnlock
| EvSend (ir : ImageReading)
| EvUninitialize
| EvDestroyEncoder.

(** The collaborators.  The three oracles of the loop are indexed by the
    loop's clock: the number of calls the loop has made before. *)
Record World := {
  getCommandlineArguments : gmap string string;
  attach_valid : bool;
  WelsCreateSVCEncoder_ok : bool;
  GetDefaultParams : SEncParamExt;
  InitializeExt : SEncParamExt → Z;
  valid_at : nat → bool;
  isRunning_at : nat → bool;
  EncodeFrame_at : nat → SSourcePicture → Z * SFrameBSInfo
}.

(** ** Lines 107-109: the output buffer *)

Definition h264Buffer (WIDTH HEIGHT : Z) : list Byte.byte :=
  replicate (Z.to_nat (wrap_uint32 (WIDTH * HEIGHT))) Byte.x30.

(** ** Lines 145-156: flattening the layers *)

(** Lines 147-150: the inner loop, [nal] running from 0 up to
    [iNalCount]; what lies behind the end of [pNalLengthInByte] is not
    known to the model. *)
Definition sizeOfLayer (l : SLayerBSInfo) : option Z :=
  foldl (λ acc nal,
           s ← acc;
           len ← pNalLengthInByte l !! nal;
           Some (wrap_int32 (s + len)))
        (Some 0) (seq 0 (Z.to_nat (iNalCount l))).

(** [memcpy(&dst[off], src, n)].  [n] becomes a [size_t], so a negative
    [n] is a huge count, and [src] is an array of the engine that has to
    hold [n] bytes.  [dst] is the vector followed by the memory behind
    it, as far as the block between [lock] and [unlock] has written it:
    nothing in the source checks [off + n] against the size of the
    vector, so a copy that runs past its end is followed there, and the
    list grows by the bytes that come to lie behind the vector.  [None]
    is a copy that the model cannot follow: a negative count or offset,
    a source that is too short, a start behind everything written so
    far. *)
Definition memcpy (dst : list Byte.byte) (off : Z) (src : list Byte.byte)
    (n : Z) : option (list Byte.byte) :=
  if bool_decide (0 ≤ off ≤ Z.of_nat (length dst) ∧ 0 ≤ n
                  ∧ n ≤ Z.of_nat (length src))
  then Some (take (Z.to_nat off) dst ++ take (Z.to_nat n) src
             ++ drop (Z.to_nat (off + n)) dst)
  else None.

Definition MAX_LAYER_NUM_OF_FRAME : nat := 128.

(** An entry of [sLayerInfo] as the [memset] of line 123 left it. *)
Definition zeroed_layer : SLayerBSInfo :=
  {| iNalCount := 0; pNalLengthInByte := []; pBsBuf := [] |}.

(** [frameInfo.sLayerInfo[layer]]: an entry that the engine filled, or,
    up to the end of the array, an entry that is still zero; [None]
    behind the array. *)
Definition sLayerInfo_at (frameInfo : SFrameBSInfo) (layer : nat)
    : option SLayerBSInfo :=
  match sLayerInfo frameInfo !! layer with
  | Some l => Some l
  | None =>
      if bool_decide (layer < MAX_LAYER_NUM_OF_FRAME)%nat
      then Some zeroed_layer else None
  end.

(** Lines 145-153: the outer loop; the state [st] is the buffer (with
    what has been written behind it) and [totalSize]. *)
Definition layer_loop (buf : list Byte.byte) (frameInfo : SFrameBSInfo)
    : option (list Byte.byte * Z) :=
  foldl (λ acc layer,
           st ← acc;
           l ← sLayerInfo_at frameInfo layer;
           n ← sizeOfLayer l;
           buf' ← memcpy st.1 st.2 (pBsBuf l) n;
           Some (buf', wrap_int32 (st.2 + n)))
        (Some (buf, 0)) (seq 0 (Z.to_nat (iLayerNum frameInfo))).

(** Lines 140-161: what happens between [lock] and [unlock] once
    [EncodeFrame] has returned.  The result is what went to [std::cerr],
    and the buffer with [h264DataForImageReading] (cleared in line 119).
    Line 155 reads [totalSize] bytes from the start of the vector on,
    behind its end too if the copies went there; the vector itself
    keeps its size. *)
Definition locked_block (buf : list Byte.byte) (result : Z)
    (frameInfo : SFrameBSInfo)
    : list event * option (list Byte.byte * list Byte.byte) :=
  if bool_decide (cmResultSuccess = result) then
    if bool_decide (videoFrameTypeSkip = eFrameType frameInfo) then
      ([EvCerr MsgSkip], Some (buf, []))
    else
      match layer_loop buf frameInfo with
      | Some (mem, totalSize) =>
          ([], Some (take (length buf) mem,
                     if bool_decide (0 < totalSize)
                     then take (Z.to_nat totalSize) mem else []))
      | None => ([], None)
      end
  else ([EvCerr (MsgEncodeFailed result)], Some (buf, [])).

(** Lines 165-169. *)
Definition publish (WIDTH HEIGHT : Z) (h264DataForImageReading : list Byte.byte)
    : list event :=
  match h264DataForImageReading with
  | [] => []
  | _ :: _ =>
      [EvSend {| format := "h264"; width := WIDTH; height := HEIGHT;
                 data := h264DataForImageReading |}]
  end.

(** Lines 116-169: one pass through the body of the [while]; [t] is the
    clock at the call of [wait]. *)
Definition iteration (w : World) (WIDTH HEIGHT : Z) (t : nat)
    (buf : list Byte.byte) : list event * option (list Byte.byte) :=
  let src := sourceFrame WIDTH HEIGHT in
  let '(result, frameInfo) := EncodeFrame_at w (t + 2)%nat src in
  let '(log, r) := locked_block buf result frameInfo in
  match r with
  | Some (buf', h264DataForImageReading) =>
      ([EvWait; EvLock; EvEncodeFrame src] ++ log ++ [EvUnlock]
         ++ publish WIDTH HEIGHT h264DataForImageReading,
       Some buf')
  | None => ([EvWait; EvLock; EvEncodeFrame src] ++ log, None)
  end.

(** How the loop stands after [fuel] passes: it has ended, it has met
    a copy or a read that the model cannot follow, or it is still
    running. *)
Inductive status := Finished | Undefined | OutOfFuel.

(** Lines 115-170: the [while]; [fuel] bounds the number of passes. *)
Fixpoint loop (w : World) (WIDTH HEIGHT : Z) (fuel : nat) (t : nat)
    (buf : list Byte.byte) : list event * status :=
  match fuel with
  | O => ([], OutOfFuel)
  | S fuel' =>
      if valid_at w t then
        if isRunning_at w (S t) then
          let '(tr, r) := iteration w WIDTH HEIGHT (S (S t)) buf in
          match r with
          | Some buf' =>
              let '(tr', st) :=
                loop w WIDTH HEIGHT fuel' (S (S t) + length tr)%nat buf' in
              (EvValid true :: EvIsRunning true :: tr ++ tr', st)
          | None => (EvValid true :: EvIsRunning true :: tr, Undefined)
          end
        else ([EvValid true; EvIsRunning false], Finished)
      else ([EvValid false], Finished)
  end.

Inductive outcome :=
| Return (retCode : Z)
| Threw
| UndefinedBehaviour
| NoFuel.

Definition wrap_uint16 (z : Z) : Z := z mod 2 ^ 16.

(** Lines 28-183. *)
Definition main (w : World) (fuel : nat) : list event * outcome :=
  let commandlineArguments := getCommandlineArguments w in
  if bool_decide (0 = count commandlineArguments "cid"
                  ∨ 0 = count commandlineArguments "name"
                  ∨ 0 = count commandlineArguments "width"
                  ∨ 0 = count commandlineArguments "height")
  then ([EvCerr MsgUsage], Return 1)
  else
    let NAME := at_key commandlineArguments "name" in
    match WIDTH commandlineArguments, HEIGHT commandlineArguments,
          GOP commandlineArguments with
    | Some W, Some H, Some G =>
        if attach_valid w then
          let tr := [EvAttach NAME; EvValid true; EvClog MsgAttached] in
          if negb (WelsCreateSVCEncoder_ok w) then
            (tr ++ [EvCreateEncoder false; EvCerr MsgCreateFailed], Return 1)
          else
            let logLevel :=
              if VERBOSE commandlineArguments
              then WELS_LOG_INFO else WELS_LOG_QUIET in
            let p := parameters W H G (GetDefaultParams w) in
            let tr := tr ++ [EvCreateEncoder true; EvSetTraceLevel logLevel;
                             EvGetDefaultParams; EvInitializeExt p] in
            if bool_decide (cmResultSuccess ≠ InitializeExt w p) then
              (tr ++ [EvCerr MsgInitFailed], Return 1)
            else
              match stoi (at_key commandlineArguments "cid") with
              | Some cid =>
                  let '(ltr, st) := loop w W H fuel 0 (h264Buffer W H) in
                  let tr := tr ++ [EvOD4Session (wrap_uint16 cid)] ++ ltr in
                  match st with
                  | Finished =>
                      (tr ++ [EvUninitialize; EvDestroyEncoder], Return 0)
                  | Undefined => (tr, UndefinedBehaviour)
                  | OutOfFuel => (tr, NoFuel)
                  end
              | None => (tr, Threw)
              end
        else
          ([EvAttach NAME; EvValid false; EvCerr (MsgAttachFailed NAME)],
           Return 1)
    | _, _, _ => ([], Threw)
    end.

(** ** The access unit as the specification words it *)

(** The NAL units of a layer: [pBsBuf] holds them back to back, unit
    [k] being [pNalLengthInByte[k]] bytes long. *)
Fixpoint nal_split (lens : list Z) (bs : list Byte.byte)
    : list (list Byte.byte) :=
  match lens with
  | [] => []
  | n :: r => take (Z.to_nat n) bs :: nal_split r (drop (Z.to_nat n) bs)
  end.

Definition nal_lengths (l : SLayerBSInfo) : list Z :=
  take (Z.to_nat (iNalCount l)) (pNalLengthInByte l).

Definition nal_payloads (l : SLayerBSInfo) : list (list Byte.byte) :=
  nal_split (nal_lengths l) (pBsBuf l).

Definition layers (frameInfo : SFrameBSInfo) : list SLayerBSInfo :=
  take (Z.to_nat (iLayerNum frameInfo)) (sLayerInfo frameInfo).

(** All NAL payloads, layer by layer and NAL by NAL within a layer. *)
Definition ordered_concatenation (frameInfo : SFrameBSInfo)
    : list Byte.byte :=
  concat (map (λ l, concat (nal_payloads l)) (layers frameInfo)).

Definition sumZ (zs : list Z) : Z := foldr Z.add 0 zs.

(** [sum(len(nal) for layer in layers for nal in layer)]. *)
Definition nal_length_sum (frameInfo : SFrameBSInfo) : Z :=
  sumZ (map (λ l, sumZ (nal_lengths l)) (layers frameInfo)).

(** What the engine promises about a layer: the two arrays are as long
    as [iNalCount] and the lengths say, and no length is negative. *)
Definition wf_layer (l : SLayerBSInfo) : bool :=
  bool_decide (Z.to_nat (iNalCount l) ≤ length (pNalLengthInByte l))%nat
  && forallb (λ n, 0 <=? n) (nal_lengths l)
  && (sumZ (nal_lengths l) <=? Z.of_nat (length (pBsBuf l))).

Definition wf_frame (frameInfo : SFrameBSInfo) : bool :=
  bool_decide (Z.to_nat (iLayerNum frameInfo)
               ≤ length (sLayerInfo frameInfo))%nat
  && forallb wf_layer (layers frameInfo).

(** The bytes that lines 145-153 write behind the end of the buffer. *)
Definition written_past_end (buf : list Byte.byte)
    (frameInfo : SFrameBSInfo) : list Byte.byte :=
  match layer_loop buf frameInfo with
  | Some (mem, _) => drop (length buf) mem
  | None => []
  end.

(** One pass of the outer loop, and the size and the bytes of a run of
    layers. *)
Definition layer_step (st : list Byte.byte * Z) (l : SLayerBSInfo)
    : option (list Byte.byte * Z) :=
  n ← sizeOfLayer l;
  buf' ← memcpy st.1 st.2 (pBsBuf l) n;
  Some (buf', wrap_int32 (st.2 + n)).

Definition layer_sizes (ls : list SLayerBSInfo) : Z :=
  sumZ (map (λ l, sumZ (nal_lengths l)) ls).

Definition layer_bytes (ls : list SLayerBSInfo) : list Byte.byte :=
  concat (map (λ l, concat (nal_payloads l)) ls).

(** ** Frames used as concrete inputs *)

Definition layer_of (nals : list (list Byte.byte)) : SLayerBSInfo :=
  {| iNalCount := Z.of_nat (length nals);
     pNalLengthInByte := map (λ nal, Z.of_nat (length nal)) nals;
     pBsBuf := concat nals |}.

(** Two layers: parameter sets of 3 and 2 bytes, then a slice of 4. *)
Definition small_frame : SFrameBSInfo :=
  {| iLayerNum := 2;
     sLayerInfo := [layer_of [[Byte.x67; Byte.x42; Byte.x00];
                              [Byte.x68; Byte.xce]];
                    layer_of [[Byte.x65; Byte.x88; Byte.x84; Byte.x21]]];
     eFrameType := videoFrameTypeIDR |}.

(** One layer with one NAL unit of 300 bytes: more than the 256 bytes of
    the buffer of a 16 x 16 picture, less than the 384 bytes of its raw
    frame. *)
Definition frame_300 : SFrameBSInfo :=
  {| iLayerNum := 1;
     sLayerInfo := [layer_of [replicate 300 Byte.x65]];
     eFrameType := videoFrameTypeIDR |}.

(** ** Reading a trace *)

(** The records that were sent. *)
Definition sends (tr : list event) : list ImageReading :=
  omap (λ e, if e is EvSend ir then Some ir else None) tr.

Definition is_wait (e : event) : bool :=
  if e is EvWait then true else false.

Definition is_encode (e : event) : bool :=
  if e is EvEncodeFrame _ then true else false.

Definition is_cerr (e : event) : bool :=
  if e is EvCerr _ then true else false.

Definition is_initialize (e : event) : bool :=
  if e is EvInitializeExt _ then true else false.

Fixpoint count_if (p : event → bool) (tr : list event) : nat :=
  match tr with
  | [] => 0
  | e :: r => (if p e then 1 else 0) + count_if p r
  end.

(** The calls made at clock [t_off] or later, for a trace that starts at
    clock [t]. *)
Definition from_clock (t_off t : nat) (tr : list event) : list event :=
  drop (t_off - t) tr.

(** [h264DataForImageReading] as line 165 finds it in the pass that
    starts at clock [t]; [None] when the assembly met a copy that the
    model cannot follow. *)
Definition h264DataForImageReading (w : World) (WIDTH HEIGHT : Z) (t : nat)
    (buf : list Byte.byte) : option (list Byte.byte) :=
  let '(result, frameInfo) :=
    EncodeFrame_at w (t + 2)%nat (sourceFrame WIDTH HEIGHT) in
  snd <$> (locked_block buf result frameInfo).2.

(** ** Worlds used as concrete inputs *)

(** Defaults of the engine that differ from every value the program
    sets. *)
Definition contrary_layer_config : SSpatialLayerConfig :=
  {| iVideoWidth := 0; iVideoHeight := 0; fFrameRate := 0;
     iSpatialBitrate := 0; iMaxSpatialBitrate := 0;
     sSliceArgument := {| uiSliceMode := SM_SINGLE_SLICE; uiSliceNum := 0 |};
     uiProfileIdc := 0; uiLevelIdc := 0; iDLayerQp := 0 |}.

Definition contrary_defaults : SEncParamExt :=
  {| fMaxFrameRate := 0; iPicWidth := 0; iPicHeight := 0;
     iTargetBitrate := 0; iMaxBitrate := 0; iRCMode := RC_OFF_MODE;
     iTemporalLayerNum := 0; iSpatialLayerNum := 0;
     bEnableAdaptiveQuant := false; bEnableBackgroundDetection := false;
     bEnableDenoise := true; bEnableFrameSkip := true;
     bEnableLongTermReference := true; iLtrMarkPeriod := 0;
     uiIntraPeriod := 0; eSpsPpsIdStrategy := INCREASING_ID;
     bPrefixNalAddingCtrl := true; iLoopFilterDisableIdc := 1;
     iEntropyCodingModeFlag := 1; iMultipleThreadIdc := 0;
     sSpatialLayers := λ _, contrary_layer_config;
     iUsageType := 0; iComplexityMode := 0; iNumRefFrame := 0;
     bEnableSceneChangeDetect := false |}.

(** [--cid=111 --name=data --width=16 --height=16] *)
Definition args_16 : gmap string string :=
  list_to_map [("cid", "111"); ("name", "data");
               ("width", "16"); ("height", "16")].

(** A world in which everything at start-up succeeds, the session keeps
    running, the shared memory is valid while [va] says so and every
    encode returns [enc]. *)
Definition world_of (va : nat → bool) (enc : Z * SFrameBSInfo) : World :=
  {| getCommandlineArguments := args_16;
     attach_valid := true;
     WelsCreateSVCEncoder_ok := true;
     GetDefaultParams := contrary_defaults;
     InitializeExt := λ _, cmResultSuccess;
     valid_at := va;
     isRunning_at := λ _, true;
     EncodeFrame_at := λ _ _, enc |}.

(** What lines 67-101 make of [args_16] and [contrary_defaults]. *)
Definition params_16 : SEncParamExt := parameters 16 16 10 contrary_defaults.

Definition empty_frame (ty : EVideoFrameType) : SFrameBSInfo :=
  {| iLayerNum := 0; sLayerInfo := []; eFrameType := ty |}.

Definition skip_world : World :=
  world_of (λ _, true) (cmResultSuccess, empty_frame videoFrameTypeSkip).

(** Every encode fails with [cmInitParaError]. *)
Definition error_world : World :=
  world_of (λ _, true) (1, empty_frame videoFrameTypeInvalid).

Definition small_frame_world : World :=
  world_of (λ _, true) (cmResultSuccess, small_frame).

(** The shared memory is valid at clocks 0, 1 and 2 and never after:
    it is lost while the first [wait] (called at clock 2) blocks. *)
Definition lost_during_wait : World :=
  world_of (λ t, bool_decide (t < 3)%nat) (cmResultSuccess, small_frame).

(** Splitting [e ∈ tr] for a trace that is written out. *)
Ltac elem_cases H :=
  repeat first [ rewrite elem_of_app in H | rewrite elem_of_cons in H
               | rewrite elem_of_nil in H ];
  repeat match type of H with
         | _ ∨ _ => destruct H as [H|H]
         end;
  first [ discriminate H
        | contradiction
        | injection H as ->; reflexivity ].

(** ** Reading a whole run *)

Definition is_lock (e : event) : bool :=
  if e is EvLock then true else false.

Definition is_unlock (e : event) : bool :=
  if e is EvUnlock then true else false.

Definition is_send (e : event) : bool :=
  if e is EvSend _ then true else false.

(** The calls that only the body of the [while] makes. *)
Definition is_loop_call (e : event) : bool :=
  match e with
  | EvIsRunning _ | EvWait | EvLock | EvEncodeFrame _ | EvUnlock
  | EvSend _ => true
  | _ => false
  end.

Definition is_teardown (e : event) : bool :=
  match e with
  | EvUninitialize | EvDestroyEncoder => true
  | _ => false
  end.

(** A monitor for the use of the lock: [lock] only when it is free,
    [unlock] and [EncodeFrame] only when it is held, and [valid],
    [isRunning], [wait] and [send] only when it is free.  The result is
    whether the lock is held at the end; [None] when the trace breaks
    the discipline. *)
Fixpoint lock_protocol (locked : bool) (tr : list event) : option bool :=
  match tr with
  | [] => Some locked
  | e :: r =>
      match e with
      | EvLock => if locked then None else lock_protocol true r
      | EvUnlock => if locked then lock_protocol false r else None
      | EvEncodeFrame _ => if locked then lock_protocol true r else None
      | EvValid _ | EvIsRunning _ | EvWait | EvSend _ =>
          if locked then None else lock_protocol false r
      | _ => lock_protocol locked r
      end
  end.

(** Lines 53-102 when every step succeeds: what [main] has called by
    the time [InitializeExt] returns. *)
Definition startup (w : World) (W H G : Z) : list event :=
  [EvAttach (at_key (getCommandlineArguments w) "name"); EvValid true;
   EvClog MsgAttached; EvCreateEncoder true;
   EvSetTraceLevel (if VERBOSE (getCommandlineArguments w)
                    then WELS_LOG_INFO else WELS_LOG_QUIET);
   EvGetDefaultParams;
   EvInitializeExt (parameters W H G (GetDefaultParams w))].

(** Lines 172-176 and the value [main] returns after the loop. *)
Definition after_loop (st : status) : list event * outcome :=
  match st with
  | Finished => ([EvUninitialize; EvDestroyEncoder], Return 0)
  | Undefined => ([], UndefinedBehaviour)
  | OutOfFuel => ([], NoFuel)
  end.

(** The session stops running at clock 3, while the first [wait]
    blocks; the shared memory stays valid. *)
Definition stopped_during_wait : World :=
  {| getCommandlineArguments := args_16;
     attach_valid := true;
     WelsCreateSVCEncoder_ok := true;
     GetDefaultParams := contrary_defaults;
     InitializeExt := λ _, cmResultSuccess;
     valid_at := λ _, true;
     isRunning_at := λ t, bool_decide (t < 3)%nat;
     EncodeFrame_at := λ _ _, (cmResultSuccess, small_frame) |}.

(** Every encode returns [frame_300]; the shared memory is lost at
    clock 3. *)
Definition oversized_world : World :=
  world_of (λ t, bool_decide (t < 3)%nat) (cmResultSuccess, frame_300).

(** [InitializeExt] refuses the parameters ([cmInitParaError]). *)
Definition init_fails_world : World :=
  {| getCommandlineArguments := args_16;
     attach_valid := true;
     WelsCreateSVCEncoder_ok := true;
     GetDefaultParams := contrary_defaults;
     InitializeExt := λ _, 1;
     valid_at := λ _, true;
     isRunning_at := λ _, true;
     EncodeFrame_at := λ _ _, (cmResultSuccess, small_frame) |}.

(** A successful frame of type P with one layer of two empty NAL
    units. *)
Definition hollow_frame : SFrameBSInfo :=
  {| iLayerNum := 1;
     sLayerInfo := [layer_of [[]; []]];
     eFrameType := videoFrameTypeP |}.

(** Closing a goal from [H : e ∈ tr], for a trace [tr] that is written
    out and a fact [Hc] about [e] that none of its events has. *)
Ltac not_in_trace H Hc :=
  repeat first [ rewrite elem_of_app in H | rewrite elem_of_cons in H
               | rewrite elem_of_nil in H ];
  repeat match type of H with
         | _ ∨ _ => destruct H as [H|H]
         end;
  first [ contradiction | discriminate H
        | subst; cbn in Hc; discriminate Hc ].

(** [--verbose=0] on the command line of [args_16]; the shared memory
    is never valid in the loop. *)
Definition verbose_world : World :=
  {| getCommandlineArguments := <["verbose" := "0"]> args_16;
     attach_valid := true;
     WelsCreateSVCEncoder_ok := true;
     GetDefaultParams := contrary_defaults;
     InitializeExt := λ _, cmResultSuccess;
     valid_at := λ _, false;
     isRunning_at := λ _, true;
     EncodeFrame_at := λ _ _, (cmResultSuccess, small_frame) |}.

(** * Properties *)

(** ** The model runs *)

Example stoi_640 : stoi "640" = Some 640.
Proof. reflexivity. Qed.

Example stoi_sign_and_rest : stoi "  -12px" = Some (-12).
Proof. reflexivity. Qed.

Example stoi_invalid_argument : stoi "wide" = None.
Proof. reflexivity. Qed.

Example stoi_out_of_range : stoi "2147483648" = None.
Proof. reflexivity. Qed.

Example GOP_absent : GOP args_16 = Some 10.
Proof. reflexivity. Qed.

Example GOP_given : GOP (<["gop" := "25"]> args_16) = Some 25.
Proof. by vm_compute. Qed.

Example small_frame_bytes :
  ordered_concatenation small_frame
  = [Byte.x67; Byte.x42; Byte.x00; Byte.x68; Byte.xce;
     Byte.x65; Byte.x88; Byte.x84; Byte.x21].
Proof. reflexivity. Qed.

(** A whole run: one frame is encoded and sent, then the shared memory
    is found invalid and the encoder is torn down. *)
Example main_one_frame :
  main lost_during_wait 2
  = ([EvAttach "data"; EvValid true; EvClog MsgAttached;
      EvCreateEncoder true; EvSetTraceLevel WELS_LOG_QUIET;
      EvGetDefaultParams; EvInitializeExt params_16; EvOD4Session 111;
      EvValid true; EvIsRunning true; EvWait; EvLock;
      EvEncodeFrame (sourceFrame 16 16); EvUnlock;
      EvSend {| format := "h264"; width := 16; height := 16;
                data := ordered_concatenation small_frame |};
      EvValid false; EvUninitialize; EvDestroyEncoder], Return 0).
Proof. by vm_compute. Qed.

Example main_usage :
  main {| getCommandlineArguments := delete "cid" args_16;
          attach_valid := true; WelsCreateSVCEncoder_ok := true;
          GetDefaultParams := contrary_defaults;
          InitializeExt := λ _, cmResultSuccess;
          valid_at := λ _, true; isRunning_at := λ _, true;
          EncodeFrame_at := λ _ _, (cmResultSuccess, small_frame) |} 1
  = ([EvCerr MsgUsage], Return 1).
Proof. by vm_compute. Qed.

(** ** Machine integers *)

Lemma wrap_int32_small z : INT_MIN ≤ z ≤ INT_MAX → wrap_int32 z = z.
Proof.
  unfold INT_MIN, INT_MAX, wrap_int32. intros Hz.
  rewrite Z.mod_small; lia.
Qed.

Lemma wrap_uint32_small z : 0 ≤ z < 2 ^ 32 → wrap_uint32 z = z.
Proof. intros Hz. unfold wrap_uint32. by rewrite Z.mod_small. Qed.

Lemma wrap_int32_uint32 z : wrap_int32 (wrap_uint32 z) = wrap_int32 z.
Proof.
  unfold wrap_int32, wrap_uint32.
  by rewrite Zplus_mod_idemp_l.
Qed.

(** ** Loops over an index are loops over the array *)

Section foldl_index.
Context {A S : Type} (g : S → A → option S) (l : list A).

Lemma foldl_seq_take (n k : nat) (a : option S) :
  (k + n ≤ length l)%nat →
  foldl (λ acc i, s ← acc; x ← l !! i; g s x) a (seq k n)
  = foldl (λ acc x, s ← acc; g s x) a (take n (drop k l)).
Proof.
  revert k a. induction n as [|n IH]; intros k a Hlen; [done|].
  destruct (lookup_lt_is_Some_2 l k) as [x Hx]; [lia|].
  rewrite (drop_S _ _ _ Hx). cbn [seq foldl take].
  rewrite IH by lia. f_equal.
  destruct a as [s|]; [|done]. cbn. by rewrite Hx.
Qed.

Lemma foldl_seq_look (look : nat → option A) (n k : nat) (a : option S) :
  (k + n ≤ length l)%nat →
  (∀ i, (i < length l)%nat → look i = l !! i) →
  foldl (λ acc i, s ← acc; x ← look i; g s x) a (seq k n)
  = foldl (λ acc x, s ← acc; g s x) a (take n (drop k l)).
Proof.
  intros Hlen Hlook. rewrite <- foldl_seq_take by done.
  revert a. generalize dependent k.
  induction n as [|n IH]; intros k Hlen a; [done|].
  cbn [seq foldl]. rewrite IH by lia. f_equal.
  destruct a as [s|]; [|done]. cbn. by rewrite Hlook by lia.
Qed.
End foldl_index.

Lemma foldl_none {S B : Type} (f : S → B → option S) (ks : list B) :
  foldl (λ acc k, s ← acc; f s k) None ks = None.
Proof. by induction ks. Qed.

(** An invariant of the state that every pass keeps holds at the end. *)
Lemma foldl_option_inv {S B : Type} (f : S → B → option S) (P : S → Prop)
    (ks : list B) (s r : S) :
  (∀ s k s', P s → f s k = Some s' → P s') → P s →
  foldl (λ acc k, s ← acc; f s k) (Some s) ks = Some r → P r.
Proof.
  intros Hstep. revert s. induction ks as [|k ks IH]; intros s Hs.
  - cbn. by intros [= <-].
  - cbn [foldl mbind option_bind]. destruct (f s k) as [s'|] eqn:Hf.
    + apply IH. by eapply Hstep.
    + by rewrite foldl_none.
Qed.

(** ** The inner loop sums the lengths *)

Lemma sumZ_nonneg zs : forallb (λ n, 0 <=? n) zs = true → 0 ≤ sumZ zs.
Proof.
  induction zs as [|z zs IH]; cbn; [lia|].
  intros [Hz%Z.leb_le Hzs]%andb_prop. apply IH in Hzs. unfold sumZ in *. lia.
Qed.

Lemma sum_loop_exact zs a :
  forallb (λ n, 0 <=? n) zs = true → 0 ≤ a → a + sumZ zs ≤ INT_MAX →
  foldl (λ acc len, s ← acc; Some (wrap_int32 (s + len))) (Some a) zs
  = Some (a + sumZ zs).
Proof.
  revert a. induction zs as [|z zs IH]; intros a Hpos Ha Hmax.
  - cbn. f_equal. lia.
  - cbn in Hpos. apply andb_prop in Hpos as [Hz%Z.leb_le Hzs].
    pose proof (sumZ_nonneg _ Hzs) as Hs.
    cbn [foldl sumZ foldr] in *. fold (sumZ zs) in *.
    cbn [mbind option_bind].
    rewrite wrap_int32_small by (unfold INT_MIN, INT_MAX in *; lia).
    rewrite IH by (done || lia). f_equal. lia.
Qed.

Lemma wf_layer_inv l :
  wf_layer l = true →
  (Z.to_nat (iNalCount l) ≤ length (pNalLengthInByte l))%nat
  ∧ forallb (λ n, 0 <=? n) (nal_lengths l) = true
  ∧ sumZ (nal_lengths l) ≤ Z.of_nat (length (pBsBuf l)).
Proof.
  unfold wf_layer. intros [[H1 H2]%andb_prop H3]%andb_prop.
  apply bool_decide_eq_true in H1. split_and!; [done|done|lia].
Qed.

Lemma sizeOfLayer_exact l :
  wf_layer l = true → sumZ (nal_lengths l) ≤ INT_MAX →
  sizeOfLayer l = Some (sumZ (nal_lengths l)).
Proof.
  intros (Hlen & Hpos & _)%wf_layer_inv Hmax. unfold sizeOfLayer.
  rewrite (foldl_seq_take (λ s len, Some (wrap_int32 (s + len)))) by lia.
  rewrite drop_0. fold (nal_lengths l).
  by rewrite sum_loop_exact.
Qed.

(** ** The bytes of a layer *)

Lemma nal_split_concat lens bs :
  forallb (λ n, 0 <=? n) lens = true →
  concat (nal_split lens bs) = take (Z.to_nat (sumZ lens)) bs.
Proof.
  revert bs. induction lens as [|n lens IH]; intros bs Hpos; [done|].
  cbn in Hpos. apply andb_prop in Hpos as [Hn%Z.leb_le Hl].
  pose proof (sumZ_nonneg _ Hl).
  cbn [nal_split concat sumZ foldr]. fold (sumZ lens).
  rewrite IH by done. rewrite take_take_drop. f_equal. lia.
Qed.

Lemma nal_split_length lens bs :
  forallb (λ n, 0 <=? n) lens = true →
  sumZ lens ≤ Z.of_nat (length bs) →
  Z.of_nat (length (concat (nal_split lens bs))) = sumZ lens.
Proof.
  intros Hpos Hle. pose proof (sumZ_nonneg _ Hpos).
  rewrite nal_split_concat by done. rewrite length_take. lia.
Qed.

(** ** The outer loop writes the layers one after the other *)

Lemma sLayerInfo_at_filled frameInfo i :
  (i < length (sLayerInfo frameInfo))%nat →
  sLayerInfo_at frameInfo i = sLayerInfo frameInfo !! i.
Proof.
  intros Hi. unfold sLayerInfo_at.
  by destruct (lookup_lt_is_Some_2 (sLayerInfo frameInfo) i Hi) as [l ->].
Qed.

Lemma memcpy_followed dst off src n :
  0 ≤ off ≤ Z.of_nat (length dst) → 0 ≤ n ≤ Z.of_nat (length src) →
  memcpy dst off src n
  = Some (take (Z.to_nat off) dst ++ take (Z.to_nat n) src
          ++ drop (Z.to_nat (off + n)) dst).
Proof. intros. unfold memcpy. rewrite bool_decide_eq_true_2; [done|lia]. Qed.

(** A copy keeps every byte of the vector in place or overwrites it: the
    memory never gets shorter, and it is as long as the copy reaches. *)
Lemma memcpy_length dst off src n dst' :
  memcpy dst off src n = Some dst' →
  length dst' = Nat.max (length dst) (Z.to_nat (off + n)).
Proof.
  unfold memcpy. case_bool_decide as Hb; [|done].
  intros [= <-]. destruct Hb as (? & ? & ?).
  rewrite !length_app, !length_take, length_drop. lia.
Qed.

Lemma layer_sizes_nonneg ls :
  forallb wf_layer ls = true → 0 ≤ layer_sizes ls.
Proof.
  induction ls as [|l ls IH]; cbn; [done|].
  intros [(_ & Hl%sumZ_nonneg & _)%wf_layer_inv Hls%IH]%andb_prop.
  unfold layer_sizes, sumZ in *. cbn in *. lia.
Qed.

Lemma layer_bytes_length ls :
  forallb wf_layer ls = true →
  Z.of_nat (length (layer_bytes ls)) = layer_sizes ls.
Proof.
  induction ls as [|l ls IH]; [done|]. cbn [forallb].
  intros [(_ & Hpos & Hle)%wf_layer_inv Hls%IH]%andb_prop.
  unfold layer_bytes, layer_sizes in *. cbn [map concat sumZ foldr].
  rewrite length_app, Nat2Z.inj_add, Hls. unfold nal_payloads.
  rewrite nal_split_length by done. done.
Qed.

Lemma layer_fold ls : ∀ buf T,
  forallb wf_layer ls = true →
  0 ≤ T → T ≤ Z.of_nat (length buf) →
  T + layer_sizes ls ≤ INT_MAX →
  foldl (λ acc l, st ← acc; layer_step st l) (Some (buf, T)) ls
  = Some (take (Z.to_nat T) buf ++ layer_bytes ls
          ++ drop (Z.to_nat (T + layer_sizes ls)) buf,
          T + layer_sizes ls).
Proof.
  induction ls as [|l ls IH]; intros buf T Hwf HT Hfit Hmax.
  - unfold layer_sizes, layer_bytes. cbn. rewrite Z.add_0_r.
    by rewrite take_drop.
  - cbn [forallb] in Hwf. apply andb_prop in Hwf as [Hl Hls].
    pose proof (layer_sizes_nonneg _ Hls) as Hrest.
    destruct (wf_layer_inv _ Hl) as (_ & Hpos & Hsrc).
    pose proof (sumZ_nonneg _ Hpos) as Hn.
    assert (layer_sizes (l :: ls) = sumZ (nal_lengths l) + layer_sizes ls)
      as Hsz by done.
    rewrite Hsz in *. set (n := sumZ (nal_lengths l)) in *.
    cbn [foldl mbind option_bind]. unfold layer_step at 2.
    rewrite sizeOfLayer_exact by (done || fold n; lia). fold n.
    cbn [mbind option_bind fst snd].
    rewrite memcpy_followed by lia. cbn [mbind option_bind].
    rewrite wrap_int32_small by (unfold INT_MIN, INT_MAX in *; lia).
    rewrite IH; [|done|lia| |lia].
    2:{ rewrite !length_app, !length_take, length_drop. lia. }
    f_equal. f_equal; [|lia].
    assert (layer_bytes (l :: ls)
            = take (Z.to_nat n) (pBsBuf l) ++ layer_bytes ls) as ->.
    { unfold layer_bytes, nal_payloads. cbn [map concat].
      by rewrite nal_split_concat. }
    set (A := take (Z.to_nat T) buf).
    set (B := take (Z.to_nat n) (pBsBuf l)).
    assert (length (A ++ B) = Z.to_nat (T + n)) as Hlen.
    { unfold A, B. rewrite length_app, !length_take. lia. }
    rewrite !(app_assoc A B).
    rewrite take_app_length' by done.
    rewrite drop_app_ge by lia.
    rewrite drop_drop, <- !app_assoc.
    rewrite Hlen. do 4 f_equal. lia.
Qed.

Lemma layer_loop_exact buf frameInfo :
  wf_frame frameInfo = true → nal_length_sum frameInfo ≤ INT_MAX →
  layer_loop buf frameInfo
  = Some (ordered_concatenation frameInfo
          ++ drop (Z.to_nat (nal_length_sum frameInfo)) buf,
          nal_length_sum frameInfo).
Proof.
  unfold wf_frame.
  intros [Hlen%bool_decide_eq_true Hwf]%andb_prop Hmax.
  unfold layer_loop.
  rewrite (foldl_seq_look layer_step (sLayerInfo frameInfo))
    by (lia || apply sLayerInfo_at_filled).
  rewrite drop_0. fold (layers frameInfo).
  rewrite layer_fold by (done || lia).
  by rewrite take_0.
Qed.

Lemma ordered_concatenation_length frameInfo :
  wf_frame frameInfo = true →
  Z.of_nat (length (ordered_concatenation frameInfo))
  = nal_length_sum frameInfo.
Proof. intros [_ Hwf]%andb_prop. by apply layer_bytes_length. Qed.

(** The memory that the outer loop leaves is never shorter than the
    vector. *)
Lemma layer_loop_length frameInfo buf mem total :
  layer_loop buf frameInfo = Some (mem, total) →
  (length buf ≤ length mem)%nat.
Proof.
  unfold layer_loop. intros Hloop.
  refine (foldl_option_inv _ (λ st, (length buf ≤ length st.1)%nat) _ _
            (mem, total) _ _ Hloop); [|done].
  intros [b T] k [b1 T1] Hinv. cbn [fst snd] in *.
  destruct (sLayerInfo_at frameInfo k) as [l|]; [|done]. cbn.
  destruct (sizeOfLayer l) as [n|]; [|done]. cbn.
  destruct (memcpy b T (pBsBuf l) n) as [b2|] eqn:Hcp; [|done]. cbn.
  intros [= <- <-]. apply memcpy_length in Hcp. lia.
Qed.

(** What the block between [lock] and [unlock] makes of a successful
    encode that is not a skip, when the layers are as the engine
    promises and their sizes add up in an [int]: the access unit is the
    ordered concatenation of the NAL units, and the vector holds as
    much of it as it has room for. *)
Lemma locked_block_success buf frameInfo :
  eFrameType frameInfo ≠ videoFrameTypeSkip →
  wf_frame frameInfo = true → nal_length_sum frameInfo ≤ INT_MAX →
  locked_block buf cmResultSuccess frameInfo
  = ([], Some (take (length buf)
                 (ordered_concatenation frameInfo
                  ++ drop (Z.to_nat (nal_length_sum frameInfo)) buf),
               ordered_concatenation frameInfo)).
Proof.
  intros Hskip Hwf Hmax.
  pose proof (ordered_concatenation_length _ Hwf) as Hlen.
  unfold locked_block.
  rewrite bool_decide_eq_true_2 by done.
  rewrite bool_decide_eq_false_2 by done.
  rewrite layer_loop_exact by done. do 3 f_equal.
  case_bool_decide as Hpos.
  - rewrite take_app_length'; [done|lia].
  - destruct (ordered_concatenation frameInfo); [done|].
    cbn in Hlen. lia.
Qed.

(** ** The access unit *)

Lemma written_past_end_exact buf frameInfo :
  wf_frame frameInfo = true → nal_length_sum frameInfo ≤ INT_MAX →
  written_past_end buf frameInfo
  = drop (length buf) (ordered_concatenation frameInfo).
Proof.
  intros Hwf Hmax. unfold written_past_end.
  rewrite layer_loop_exact by done.
  pose proof (ordered_concatenation_length _ Hwf) as Hlen.
  rewrite drop_app.
  rewrite (drop_ge (drop _ buf)); [by rewrite app_nil_r|].
  rewrite length_drop. lia.
Qed.


(** ** The output buffer *)

Lemma h264Buffer_length WIDTH HEIGHT :
  Z.of_nat (length (h264Buffer WIDTH HEIGHT)) = wrap_uint32 (WIDTH * HEIGHT).
Proof.
  unfold h264Buffer. rewrite length_replicate, Z2Nat.id; [done|].
  unfold wrap_uint32. by apply Z.mod_pos_bound.
Qed.

(** C2, at an input where the code fails it.  The buffer of a 16 x 16
    picture is resized to 256 elements, not to the 384 bytes of the raw
    frame; a frame of 300 bytes, which the raw frame size would hold,
    is copied into it by line 151 without a check, and 44 bytes are
    written behind its end. *)
Theorem h264Buffer_is_overrun :
  Z.of_nat (length (h264Buffer 16 16)) = 256
  ∧ 16 * 16 * 3 / 2 = 384
  ∧ wf_frame frame_300 = true
  ∧ nal_length_sum frame_300 = 300
  ∧ layer_loop (h264Buffer 16 16) frame_300
    = Some (replicate 300 Byte.x65, 300)
  ∧ length (written_past_end (h264Buffer 16 16) frame_300) = 44%nat.
Proof. split_and!; by vm_compute. Qed.

(** ** One pass of the loop *)

Lemma publish_cases WIDTH HEIGHT au :
  publish WIDTH HEIGHT au = [] ∧ au = []
  ∨ publish WIDTH HEIGHT au
    = [EvSend {| format := "h264"; width := WIDTH; height := HEIGHT;
                 data := au |}] ∧ au ≠ [].
Proof. destruct au; [by left|by right]. Qed.

Lemma locked_block_log buf result frameInfo :
  Forall (λ e, is_cerr e = true) (locked_block buf result frameInfo).1.
Proof.
  unfold locked_block. repeat case_bool_decide; cbn.
  - by repeat constructor.
  - destruct (layer_loop buf frameInfo) as [[? ?]|]; by cbn.
  - by repeat constructor.
Qed.

(** The shape of the trace of a pass. *)
Lemma iteration_shape w WIDTH HEIGHT t buf :
  ∃ log,
    Forall (λ e, is_cerr e = true) log
    ∧ ((iteration w WIDTH HEIGHT t buf).2 = None
       ∧ h264DataForImageReading w WIDTH HEIGHT t buf = None
       ∧ (iteration w WIDTH HEIGHT t buf).1
         = EvWait :: EvLock :: EvEncodeFrame (sourceFrame WIDTH HEIGHT) :: log
       ∨ ∃ buf' au,
           (iteration w WIDTH HEIGHT t buf).2 = Some buf'
           ∧ h264DataForImageReading w WIDTH HEIGHT t buf = Some au
           ∧ (iteration w WIDTH HEIGHT t buf).1
             = EvWait :: EvLock :: EvEncodeFrame (sourceFrame WIDTH HEIGHT)
               :: log ++ EvUnlock :: publish WIDTH HEIGHT au).
Proof.
  unfold iteration, h264DataForImageReading.
  destruct (EncodeFrame_at w (t + 2)%nat (sourceFrame WIDTH HEIGHT))
    as [result frameInfo].
  pose proof (locked_block_log buf result frameInfo) as Hlog.
  destruct (locked_block buf result frameInfo) as [log [[buf' au]|]];
    cbn in *; exists log; (split; [done|]).
  - right. by exists buf', au.
  - by left.
Qed.

(** C3.  In a pass whose encode result is classified [videoFrameTypeSkip]
    (whatever its status), [h264DataForImageReading] is empty when line
    165 tests it, the buffer is as before, the pass runs to its end and
    its trace has no send. *)
Theorem skip_publishes_nothing
    (w : World) (WIDTH HEIGHT : Z) (t : nat) (buf : list Byte.byte) :
  eFrameType (EncodeFrame_at w (t + 2)%nat (sourceFrame WIDTH HEIGHT)).2
  = videoFrameTypeSkip →
  h264DataForImageReading w WIDTH HEIGHT t buf = Some []
  ∧ (iteration w WIDTH HEIGHT t buf).2 = Some buf
  ∧ sends (iteration w WIDTH HEIGHT t buf).1 = [].
Proof.
  unfold h264DataForImageReading, iteration.
  destruct (EncodeFrame_at w (t + 2)%nat (sourceFrame WIDTH HEIGHT))
    as [result frameInfo]. cbn [snd]. intros Hskip.
  unfold locked_block. rewrite Hskip.
  rewrite (bool_decide_eq_true_2 (videoFrameTypeSkip = videoFrameTypeSkip))
    by done.
  by case_bool_decide.
Qed.

Lemma skip_publishes_nothing_witness :
  eFrameType (EncodeFrame_at skip_world (2 + 2)%nat (sourceFrame 16 16)).2
  = videoFrameTypeSkip
  ∧ h264DataForImageReading skip_world 16 16 2 (h264Buffer 16 16) = Some []
  ∧ (iteration skip_world 16 16 2 (h264Buffer 16 16)).2
    = Some (h264Buffer 16 16)
  ∧ sends (iteration skip_world 16 16 2 (h264Buffer 16 16)).1 = [].
Proof.
  split; [reflexivity|].
  apply (skip_publishes_nothing skip_world 16 16 2 (h264Buffer 16 16)).
  reflexivity.
Defined.

Lemma sends_app tr1 tr2 : sends (tr1 ++ tr2) = sends tr1 ++ sends tr2.
Proof. unfold sends. apply omap_app. Qed.

Lemma sends_log log : Forall (λ e, is_cerr e = true) log → sends log = [].
Proof.
  induction 1 as [|e log He _ IH]; [done|].
  destruct e; done.
Qed.

(** C6.  Every pass sends at most one record; it sends one exactly when
    [h264DataForImageReading] is not empty at line 165, and that record
    has the format "h264", the width [WIDTH], the height [HEIGHT] and
    the bytes of [h264DataForImageReading] as its data. *)
Theorem publish_at_most_once
    (w : World) (WIDTH HEIGHT : Z) (t : nat) (buf : list Byte.byte) :
  (length (sends (iteration w WIDTH HEIGHT t buf).1) ≤ 1)%nat
  ∧ sends (iteration w WIDTH HEIGHT t buf).1
    = match h264DataForImageReading w WIDTH HEIGHT t buf with
      | Some (b :: au) =>
          [{| format := "h264"; width := WIDTH; height := HEIGHT;
              data := b :: au |}]
      | Some [] | None => []
      end.
Proof.
  destruct (iteration_shape w WIDTH HEIGHT t buf)
    as (log & Hlog & [(_ & -> & ->) | (buf' & au & _ & -> & ->)]).
  - change (EvWait :: EvLock :: ?e :: log) with ([EvWait; EvLock; e] ++ log).
    rewrite sends_app, (sends_log log Hlog). cbn. split; [lia|done].
  - change (EvWait :: EvLock :: ?e :: log ++ ?r)
      with ([EvWait; EvLock; e] ++ log ++ r).
    rewrite !sends_app, (sends_log log Hlog).
    destruct au as [|b au]; cbn; (split; [lia|done]).
Qed.

(** What a pass is after a successful encode that is not a skip. *)
Lemma iteration_success w WIDTH HEIGHT t buf frameInfo :
  EncodeFrame_at w (t + 2)%nat (sourceFrame WIDTH HEIGHT)
  = (cmResultSuccess, frameInfo) →
  eFrameType frameInfo ≠ videoFrameTypeSkip →
  wf_frame frameInfo = true → nal_length_sum frameInfo ≤ INT_MAX →
  iteration w WIDTH HEIGHT t buf
  = ([EvWait; EvLock; EvEncodeFrame (sourceFrame WIDTH HEIGHT); EvUnlock]
       ++ publish WIDTH HEIGHT (ordered_concatenation frameInfo),
     Some (take (length buf)
             (ordered_concatenation frameInfo
              ++ drop (Z.to_nat (nal_length_sum frameInfo)) buf))).
Proof.
  intros Henc Hskip Hwf Hmax. unfold iteration. rewrite Henc.
  by rewrite locked_block_success.
Qed.

(** The exit paths that the source names do run to the end. *)
Lemma iteration_runs_to_end w WIDTH HEIGHT t buf :
  let r := EncodeFrame_at w (t + 2)%nat (sourceFrame WIDTH HEIGHT) in
  r.1 ≠ cmResultSuccess
  ∨ eFrameType r.2 = videoFrameTypeSkip
  ∨ wf_frame r.2 = true ∧ nal_length_sum r.2 ≤ INT_MAX →
  is_Some (iteration w WIDTH HEIGHT t buf).2.
Proof.
  cbn zeta. intros Hpath.
  destruct (EncodeFrame_at w (t + 2)%nat (sourceFrame WIDTH HEIGHT))
    as [result frameInfo] eqn:Henc. cbn [fst snd] in Hpath.
  destruct (decide (result = cmResultSuccess)) as [->|Hres].
  - destruct (decide (eFrameType frameInfo = videoFrameTypeSkip))
      as [Hskip|Hskip].
    + unfold iteration. rewrite Henc. unfold locked_block.
      rewrite bool_decide_eq_true_2 by done.
      rewrite bool_decide_eq_true_2 by done. by eexists.
    + destruct Hpath as [?|[?|[Hwf Hmax]]]; [done|done|].
      rewrite (iteration_success _ _ _ _ _ frameInfo) by done.
      by eexists.
  - unfold iteration. rewrite Henc. unfold locked_block.
    rewrite bool_decide_eq_false_2 by done. by eexists.
Qed.

(** C7.  Between [lock] and [unlock] the source has no [return], no
    [break] and no [continue], and nothing checks the copies of line
    151: a pass reaches [unlock] after a failed encode, after a skip,
    and after a successful encode of any frame whose layers are as the
    engine promises and whose sizes add up in an [int], whether the
    frame fits the buffer or not.  Every pass that comes to an end has
    called [lock] once and [unlock] once after it; between the two lie
    only the encode and what went to [std::cerr]; the send, if there
    is one, comes after [unlock], which is the last call of the pass
    but for it, so that the next [wait] follows [unlock] too. *)
Theorem unlock_on_every_exit_path
    (w : World) (WIDTH HEIGHT : Z) (t : nat) (buf : list Byte.byte) :
  let r := EncodeFrame_at w (t + 2)%nat (sourceFrame WIDTH HEIGHT) in
  (r.1 ≠ cmResultSuccess
   ∨ eFrameType r.2 = videoFrameTypeSkip
   ∨ wf_frame r.2 = true ∧ nal_length_sum r.2 ≤ INT_MAX →
   ∃ log pub buf',
     iteration w WIDTH HEIGHT t buf
     = ([EvWait; EvLock; EvEncodeFrame (sourceFrame WIDTH HEIGHT)]
          ++ log ++ [EvUnlock] ++ pub, Some buf')
     ∧ Forall (λ e, is_cerr e = true) log
     ∧ (pub = [] ∨ ∃ ir, pub = [EvSend ir]))
  ∧ ∀ buf', (iteration w WIDTH HEIGHT t buf).2 = Some buf' →
      ∃ log pub,
        (iteration w WIDTH HEIGHT t buf).1
        = [EvWait; EvLock; EvEncodeFrame (sourceFrame WIDTH HEIGHT)]
          ++ log ++ [EvUnlock] ++ pub
        ∧ Forall (λ e, is_cerr e = true) log
        ∧ (pub = [] ∨ ∃ ir, pub = [EvSend ir]).
Proof.
  assert (∀ buf', (iteration w WIDTH HEIGHT t buf).2 = Some buf' →
      ∃ log pub,
        (iteration w WIDTH HEIGHT t buf).1
        = [EvWait; EvLock; EvEncodeFrame (sourceFrame WIDTH HEIGHT)]
          ++ log ++ [EvUnlock] ++ pub
        ∧ Forall (λ e, is_cerr e = true) log
        ∧ (pub = [] ∨ ∃ ir, pub = [EvSend ir])) as Hshape.
  { intros buf' Hend.
    destruct (iteration_shape w WIDTH HEIGHT t buf)
      as (log & Hlog & [(Hnone & _) | (b & au & _ & _ & Htr)]).
    { rewrite Hnone in Hend. discriminate. }
    exists log, (publish WIDTH HEIGHT au).
    split; [exact Htr|]. split; [exact Hlog|].
    destruct (publish_cases WIDTH HEIGHT au) as [[-> _]|[-> _]];
      [by left|right; by eexists]. }
  split; [|exact Hshape]. intros Hpath.
  destruct (iteration_runs_to_end w WIDTH HEIGHT t buf Hpath) as [buf' Hend].
  destruct (Hshape buf' Hend) as (log & pub & Htr & Hlog & Hpub).
  exists log, pub, buf'. split; [|done].
  destruct (iteration w WIDTH HEIGHT t buf) as [tr r]. cbn in *. congruence.
Qed.

Lemma unlock_on_every_exit_path_witness :
  (wf_frame frame_300 = true ∧ nal_length_sum frame_300 ≤ INT_MAX)
  ∧ ∃ log pub buf',
      iteration oversized_world 16 16 2 (h264Buffer 16 16)
      = ([EvWait; EvLock; EvEncodeFrame (sourceFrame 16 16)]
           ++ log ++ [EvUnlock] ++ pub, Some buf')
      ∧ Forall (λ e, is_cerr e = true) log
      ∧ (pub = [] ∨ ∃ ir, pub = [EvSend ir]).
Proof.
  destruct (unlock_on_every_exit_path oversized_world 16 16 2
              (h264Buffer 16 16)) as [Hruns _].
  split; [split; by vm_compute|].
  apply Hruns. right. right. split; by vm_compute.
Defined.

(** From the encoder to the session: a successful encode that is not a
    skip and not empty is sent as the ordered concatenation of its NAL
    units. *)
Lemma iteration_publishes_access_unit w WIDTH HEIGHT t buf frameInfo :
  EncodeFrame_at w (t + 2)%nat (sourceFrame WIDTH HEIGHT)
  = (cmResultSuccess, frameInfo) →
  eFrameType frameInfo ≠ videoFrameTypeSkip →
  wf_frame frameInfo = true → nal_length_sum frameInfo ≤ INT_MAX →
  ordered_concatenation frameInfo ≠ [] →
  (iteration w WIDTH HEIGHT t buf).1
  = [EvWait; EvLock; EvEncodeFrame (sourceFrame WIDTH HEIGHT); EvUnlock;
     EvSend {| format := "h264"; width := WIDTH; height := HEIGHT;
               data := ordered_concatenation frameInfo |}].
Proof.
  intros Henc Hskip Hwf Hmax Hne.
  rewrite (iteration_success _ _ _ _ _ frameInfo) by done. cbn.
  by destruct (ordered_concatenation frameInfo).
Qed.

(** ** The loop *)

(** C4.  When the encode of a pass returns a status other than
    [cmResultSuccess], the pass only reports the status on [std::cerr]:
    no layer is read and the buffer stays as it was (the outcome is the
    same for every [frameInfo]), nothing is sent, and the loop goes on
    from its head with the buffer unchanged; if the head still finds
    the shared memory valid and the session running, its next call is
    [wait]. *)
Theorem encode_error_drops_frame
    (w : World) (WIDTH HEIGHT : Z) (fuel t : nat) (buf : list Byte.byte) :
  valid_at w t = true →
  isRunning_at w (S t) = true →
  (EncodeFrame_at w (S (S t) + 2)%nat (sourceFrame WIDTH HEIGHT)).1
  ≠ cmResultSuccess →
  let result :=
    (EncodeFrame_at w (S (S t) + 2)%nat (sourceFrame WIDTH HEIGHT)).1 in
  let pass :=
    [EvWait; EvLock; EvEncodeFrame (sourceFrame WIDTH HEIGHT);
     EvCerr (MsgEncodeFailed result); EvUnlock] in
  (∀ frameInfo, locked_block buf result frameInfo
                = ([EvCerr (MsgEncodeFailed result)], Some (buf, [])))
  ∧ iteration w WIDTH HEIGHT (S (S t)) buf = (pass, Some buf)
  ∧ sends pass = []
  ∧ loop w WIDTH HEIGHT (S fuel) t buf
    = ([EvValid true; EvIsRunning true] ++ pass
         ++ (loop w WIDTH HEIGHT fuel (t + 7) buf).1,
       (loop w WIDTH HEIGHT fuel (t + 7) buf).2)
  ∧ (valid_at w (t + 7) = true → isRunning_at w (S (t + 7)) = true →
     ∀ fuel', ∃ rest,
       (loop w WIDTH HEIGHT (S fuel') (t + 7) buf).1
       = EvValid true :: EvIsRunning true :: EvWait :: rest).
Proof.
  intros Hvalid Hrun Herr result pass.
  assert (∀ frameInfo, locked_block buf result frameInfo
                       = ([EvCerr (MsgEncodeFailed result)], Some (buf, [])))
    as Hblock.
  { intros frameInfo. unfold locked_block.
    by rewrite bool_decide_eq_false_2. }
  assert (iteration w WIDTH HEIGHT (S (S t)) buf = (pass, Some buf)) as Hpass.
  { unfold iteration. subst result pass.
    destruct (EncodeFrame_at w (S (S t) + 2)%nat (sourceFrame WIDTH HEIGHT))
      as [result frameInfo] eqn:Henc. cbn [fst] in *.
    by rewrite Hblock. }
  split_and!; [done|done|done| |].
  - cbn [loop]. rewrite Hvalid, Hrun, Hpass.
    replace (S (S t) + length pass)%nat with (t + 7)%nat by (cbn; lia).
    by destruct (loop w WIDTH HEIGHT fuel (t + 7) buf).
  - intros Hvalid' Hrun' fuel'. cbn [loop]. rewrite Hvalid', Hrun'.
    destruct (iteration_shape w WIDTH HEIGHT (S (S (t + 7))) buf)
      as (log & _ & [(Hr & _ & Htr) | (b & au & Hr & _ & Htr)]);
      destruct (iteration w WIDTH HEIGHT (S (S (t + 7))) buf) as [tr r];
      cbn [fst snd] in *; subst tr r.
    + by eexists.
    + destruct (loop w WIDTH HEIGHT fuel' _ b). by eexists.
Qed.

Lemma encode_error_drops_frame_witness :
  (valid_at error_world 0 = true
   ∧ isRunning_at error_world 1 = true
   ∧ (EncodeFrame_at error_world (2 + 2)%nat (sourceFrame 16 16)).1
     ≠ cmResultSuccess)
  ∧ (∀ frameInfo, locked_block (h264Buffer 16 16) 1 frameInfo
                  = ([EvCerr (MsgEncodeFailed 1)],
                     Some (h264Buffer 16 16, [])))
  ∧ iteration error_world 16 16 2 (h264Buffer 16 16)
    = ([EvWait; EvLock; EvEncodeFrame (sourceFrame 16 16);
        EvCerr (MsgEncodeFailed 1); EvUnlock], Some (h264Buffer 16 16))
  ∧ sends [EvWait; EvLock; EvEncodeFrame (sourceFrame 16 16);
           EvCerr (MsgEncodeFailed 1); EvUnlock] = []
  ∧ loop error_world 16 16 3 0 (h264Buffer 16 16)
    = ([EvValid true; EvIsRunning true]
         ++ [EvWait; EvLock; EvEncodeFrame (sourceFrame 16 16);
             EvCerr (MsgEncodeFailed 1); EvUnlock]
         ++ (loop error_world 16 16 2 7 (h264Buffer 16 16)).1,
       (loop error_world 16 16 2 7 (h264Buffer 16 16)).2)
  ∧ (valid_at error_world 7 = true → isRunning_at error_world 8 = true →
     ∀ fuel', ∃ rest,
       (loop error_world 16 16 (S fuel') 7 (h264Buffer 16 16)).1
       = EvValid true :: EvIsRunning true :: EvWait :: rest).
Proof.
  split; [split_and!; [reflexivity|reflexivity|discriminate]|].
  apply (encode_error_drops_frame error_world 16 16 2 0 (h264Buffer 16 16));
    [reflexivity | reflexivity | discriminate].
Defined.

(** ** Losing the shared memory *)

Lemma count_if_app p tr1 tr2 :
  count_if p (tr1 ++ tr2) = (count_if p tr1 + count_if p tr2)%nat.
Proof. induction tr1 as [|e tr1 IH]; cbn; [done|]. rewrite IH. lia. Qed.

Lemma count_if_drop p k tr : (count_if p (drop k tr) ≤ count_if p tr)%nat.
Proof.
  revert k. induction tr as [|e tr IH]; intros [|k]; cbn; try lia.
  specialize (IH k). lia.
Qed.

Lemma count_if_log p log :
  (∀ m, p (EvCerr m) = false) →
  Forall (λ e, is_cerr e = true) log → count_if p log = 0%nat.
Proof.
  intros Hp. induction 1 as [|e log He _ IH]; [done|].
  destruct e; try done. cbn. by rewrite Hp.
Qed.

(** A pass calls [wait] once and [EncodeFrame] once. *)
Lemma iteration_counts w WIDTH HEIGHT t buf :
  count_if is_wait (iteration w WIDTH HEIGHT t buf).1 = 1%nat
  ∧ count_if is_encode (iteration w WIDTH HEIGHT t buf).1 = 1%nat.
Proof.
  destruct (iteration_shape w WIDTH HEIGHT t buf)
    as (log & Hlog & [(_ & _ & ->) | (buf' & au & _ & _ & ->)]).
  - cbn. by rewrite !(count_if_log _ log) by done.
  - cbn. rewrite !count_if_app, !(count_if_log _ log) by done.
    by destruct (publish_cases WIDTH HEIGHT au) as [[-> _]|[-> _]].
Qed.

Section validity_lost.
Context (w : World) (WIDTH HEIGHT : Z) (t_off : nat).
Hypothesis lost : ∀ t, (t_off ≤ t)%nat → valid_at w t = false.

(** At a head that finds the shared memory invalid the loop ends at
    once. *)
Lemma loop_head_invalid fuel t buf :
  valid_at w t = false →
  loop w WIDTH HEIGHT (S fuel) t buf = ([EvValid false], Finished).
Proof. intros Hv. cbn [loop]. by rewrite Hv. Qed.

Lemma loop_quiet_when_lost p fuel t buf :
  (∀ b, p (EvValid b) = false) → (t_off ≤ t)%nat →
  count_if p (loop w WIDTH HEIGHT fuel t buf).1 = 0%nat.
Proof.
  intros Hp Ht. destruct fuel as [|fuel]; [done|].
  rewrite loop_head_invalid by auto. cbn. by rewrite Hp.
Qed.

Lemma loop_after_loss p fuel : ∀ t buf,
  (∀ b, p (EvValid b) = false) → (∀ b, p (EvIsRunning b) = false) →
  (∀ t' buf', count_if p (iteration w WIDTH HEIGHT t' buf').1 ≤ 1)%nat →
  (count_if p (from_clock t_off t (loop w WIDTH HEIGHT fuel t buf).1)
   ≤ 1)%nat.
Proof.
  intros t buf Hv Hr Hpass. revert t buf.
  induction fuel as [|fuel IH]; intros t buf; [cbn; unfold from_clock;
    rewrite drop_nil; cbn; lia|].
  cbn [loop]. destruct (valid_at w t) eqn:Hvalid.
  2:{ etrans; [apply count_if_drop|]. cbn. rewrite Hv. lia. }
  destruct (isRunning_at w (S t)).
  2:{ etrans; [apply count_if_drop|]. cbn. rewrite Hv, Hr. lia. }
  assert (t < t_off)%nat as Hbefore.
  { destruct (decide (t_off ≤ t)%nat) as [Hle|]; [|lia].
    rewrite lost in Hvalid by done. discriminate. }
  pose proof (Hpass (S (S t)) buf) as Hone.
  destruct (iteration w WIDTH HEIGHT (S (S t)) buf) as [tr [buf'|]];
    cbn [fst snd] in *.
  2:{ etrans; [apply count_if_drop|]. cbn. rewrite Hv, Hr. lia. }
  specialize (IH (S (S t) + length tr)%nat buf').
  pose proof (loop_quiet_when_lost p fuel (S (S t) + length tr) buf' Hv)
    as Hquiet.
  destruct (loop w WIDTH HEIGHT fuel (S (S t) + length tr) buf')
    as [tr' st]. cbn [fst snd] in *.
  destruct (decide (t_off ≤ S (S t) + length tr)%nat) as [Hle|Hgt].
  - etrans; [apply count_if_drop|]. cbn.
    rewrite Hv, Hr, count_if_app, Hquiet by done. lia.
  - unfold from_clock in *.
    replace (t_off - t)%nat
      with (S (S (length tr + (t_off - (S (S t) + length tr)))))%nat
      by lia.
    cbn [drop]. rewrite drop_app_add. exact IH.
Qed.

Lemma loop_ends fuel : ∀ t buf,
  (t_off - t < fuel)%nat →
  (loop w WIDTH HEIGHT fuel t buf).2 ≠ OutOfFuel.
Proof.
  induction fuel as [|fuel IH]; intros t buf Hfuel; [lia|].
  cbn [loop]. destruct (valid_at w t) eqn:Hvalid; [|done].
  destruct (isRunning_at w (S t)); [|done].
  assert (t < t_off)%nat as Hbefore.
  { destruct (decide (t_off ≤ t)%nat) as [Hle|]; [|lia].
    rewrite lost in Hvalid by done. discriminate. }
  destruct (iteration w WIDTH HEIGHT (S (S t)) buf) as [tr [buf'|]];
    [|done].
  specialize (IH (S (S t) + length tr)%nat buf').
  destruct (loop w WIDTH HEIGHT fuel (S (S t) + length tr) buf')
    as [tr' st]. cbn [fst snd] in *. apply IH. lia.
Qed.
End validity_lost.

(** C8 (as amended).  Let the shared memory be invalid from clock
    [t_off] on.  A loop head reached from then on ends the loop at once,
    with neither [wait] nor [EncodeFrame]; the loop needs no more than
    [t_off + 1] passes to come to its end (or to a copy that the model
    cannot follow); and from clock [t_off] on it calls [wait] at most once and
    [EncodeFrame] at most once, in the pass that was under way when the
    memory was lost. *)
Theorem loop_ends_within_one_wait_cycle
    (w : World) (WIDTH HEIGHT : Z) (t_off : nat) :
  (∀ t, (t_off ≤ t)%nat → valid_at w t = false) →
  (∀ fuel t buf, (t_off ≤ t)%nat →
     loop w WIDTH HEIGHT (S fuel) t buf = ([EvValid false], Finished))
  ∧ ∀ fuel buf, (t_off < fuel)%nat →
      (loop w WIDTH HEIGHT fuel 0 buf).2 ≠ OutOfFuel
      ∧ (count_if is_wait
           (from_clock t_off 0 (loop w WIDTH HEIGHT fuel 0 buf).1) ≤ 1)%nat
      ∧ (count_if is_encode
           (from_clock t_off 0 (loop w WIDTH HEIGHT fuel 0 buf).1) ≤ 1)%nat.
Proof.
  intros Hlost. split.
  - intros fuel t buf Ht. apply loop_head_invalid. by apply Hlost.
  - intros fuel buf Hfuel. split_and!.
    + apply (loop_ends w WIDTH HEIGHT t_off Hlost). lia.
    + apply (loop_after_loss w WIDTH HEIGHT t_off Hlost); [done|done|].
      intros t' buf'. by rewrite (proj1 (iteration_counts _ _ _ _ _)).
    + apply (loop_after_loss w WIDTH HEIGHT t_off Hlost); [done|done|].
      intros t' buf'. by rewrite (proj2 (iteration_counts _ _ _ _ _)).
Qed.

Lemma lost_during_wait_lost t :
  (3 ≤ t)%nat → valid_at lost_during_wait t = false.
Proof. intros Ht. cbn. by rewrite bool_decide_eq_false_2 by lia. Qed.

Lemma loop_ends_within_one_wait_cycle_witness :
  (∀ t, (3 ≤ t)%nat → valid_at lost_during_wait t = false)
  ∧ (∀ fuel t buf, (3 ≤ t)%nat →
       loop lost_during_wait 16 16 (S fuel) t buf
       = ([EvValid false], Finished))
  ∧ ∀ fuel buf, (3 < fuel)%nat →
      (loop lost_during_wait 16 16 fuel 0 buf).2 ≠ OutOfFuel
      ∧ (count_if is_wait
           (from_clock 3 0 (loop lost_during_wait 16 16 fuel 0 buf).1)
         ≤ 1)%nat
      ∧ (count_if is_encode
           (from_clock 3 0 (loop lost_during_wait 16 16 fuel 0 buf).1)
         ≤ 1)%nat.
Proof.
  split; [exact lost_during_wait_lost|].
  apply (loop_ends_within_one_wait_cycle lost_during_wait 16 16 3).
  exact lost_during_wait_lost.
Defined.

(** C8 fails as stated: when the shared memory is lost at clock 3, while
    the [wait] called at clock 2 blocks, the pass goes on to [lock] and
    to [EncodeFrame] (clock 4) before the next head ends the loop. *)
Lemma encode_after_validity_loss :
  (∀ t, (3 ≤ t)%nat → valid_at lost_during_wait t = false)
  ∧ loop lost_during_wait 16 16 5 0 (h264Buffer 16 16)
    = ([EvValid true; EvIsRunning true; EvWait; EvLock;
        EvEncodeFrame (sourceFrame 16 16); EvUnlock;
        EvSend {| format := "h264"; width := 16; height := 16;
                  data := ordered_concatenation small_frame |};
        EvValid false], Finished)
  ∧ count_if is_encode
      (from_clock 3 0
         (loop lost_during_wait 16 16 5 0 (h264Buffer 16 16)).1) = 1%nat.
Proof.
  split; [exact lost_during_wait_lost|]. split; by vm_compute.
Qed.

(** ** The raw frame *)

(** C5 (as amended).  For even [WIDTH] and [HEIGHT] that are not
    negative, with [WIDTH] an [int] and the end of the third plane's
    offset below 2^32, the planes handed to the encoder start at the
    offsets 0, W*H and W*H + (W/2)*(H/2) of the shared memory, with the
    strides W, W/2 and W/2, and W*H + (W*H >> 2) is W*H + (W/2)*(H/2). *)
Theorem plane_offsets_and_strides (WIDTH HEIGHT : Z) :
  Z.even WIDTH = true → Z.even HEIGHT = true →
  0 ≤ WIDTH ≤ INT_MAX → 0 ≤ HEIGHT →
  WIDTH * HEIGHT + (WIDTH / 2) * (HEIGHT / 2) < 2 ^ 32 →
  pData (sourceFrame WIDTH HEIGHT)
  = [Some 0; Some (WIDTH * HEIGHT);
     Some (WIDTH * HEIGHT + (WIDTH / 2) * (HEIGHT / 2)); None]
  ∧ iStride (sourceFrame WIDTH HEIGHT)
    = [WIDTH; WIDTH / 2; WIDTH / 2; 0]
  ∧ v_plane_offset WIDTH HEIGHT
    = WIDTH * HEIGHT + (WIDTH / 2) * (HEIGHT / 2)
  ∧ WIDTH * HEIGHT + Z.shiftr (WIDTH * HEIGHT) 2
    = WIDTH * HEIGHT + (WIDTH / 2) * (HEIGHT / 2).
Proof.
  intros [a ->]%Z.even_spec [b ->]%Z.even_spec HW HH.
  rewrite !(Z.mul_comm 2), !Z.div_mul by done. intros Hend.
  assert (a * 2 * (b * 2) = a * b * 2 ^ 2) as Hprod by lia.
  assert (Z.shiftr (a * 2 * (b * 2)) 2 = a * b) as Hshift.
  { rewrite Z.shiftr_div_pow2 by done. rewrite Hprod.
    by rewrite Z.div_mul. }
  assert (0 ≤ a * b) by nia.
  assert (wrap_uint32 (a * 2 * (b * 2)) = a * 2 * (b * 2)) as Hy
    by (apply wrap_uint32_small; lia).
  assert (v_plane_offset (a * 2) (b * 2) = a * 2 * (b * 2) + a * b) as Hv.
  { unfold v_plane_offset. rewrite Hy, Hshift.
    apply wrap_uint32_small. lia. }
  unfold sourceFrame. cbn [pData iStride].
  rewrite Hy, Hv, Hshift, Z.div_mul by done.
  rewrite !wrap_int32_small by (unfold INT_MIN, INT_MAX in *; lia).
  done.
Qed.

Lemma plane_offsets_and_strides_witness :
  (Z.even 640 = true ∧ Z.even 480 = true ∧ 0 ≤ 640 ≤ INT_MAX ∧ 0 ≤ 480
   ∧ 640 * 480 + (640 / 2) * (480 / 2) < 2 ^ 32)
  ∧ pData (sourceFrame 640 480)
    = [Some 0; Some (640 * 480);
       Some (640 * 480 + (640 / 2) * (480 / 2)); None]
  ∧ iStride (sourceFrame 640 480) = [640; 640 / 2; 640 / 2; 0]
  ∧ v_plane_offset 640 480 = 640 * 480 + (640 / 2) * (480 / 2)
  ∧ 640 * 480 + Z.shiftr (640 * 480) 2
    = 640 * 480 + (640 / 2) * (480 / 2).
Proof.
  split; [split_and!; by vm_compute|].
  apply (plane_offsets_and_strides 640 480);
    [reflexivity | reflexivity | by vm_compute | lia | by vm_compute].
Defined.

(** C5 fails as stated: 65536 is even, and for a 65536 x 65536 picture
    [WIDTH * HEIGHT] wraps to 0, so that all three planes start at
    offset 0; W*H + (W/2)*(H/2) is not 0, not even modulo 2^32. *)
Lemma plane_offsets_wrap :
  Z.even 65536 = true
  ∧ pData (sourceFrame 65536 65536) = [Some 0; Some 0; Some 0; None]
  ∧ 65536 * 65536 = 2 ^ 32
  ∧ v_plane_offset 65536 65536 = 0
  ∧ wrap_uint32 (65536 * 65536 + (65536 / 2) * (65536 / 2)) = 2 ^ 30.
Proof. split_and!; by vm_compute. Qed.

(** ** Initialising the encoder *)

Lemma stoi_range s v : stoi s = Some v → INT_MIN ≤ v ≤ INT_MAX.
Proof.
  unfold stoi.
  destruct (match skip_space s with
            | String "-"%char r => (true, r)
            | String "+"%char r => (false, r)
            | _ => (false, skip_space s)
            end) as [neg s'].
  destruct (read_digits s' None) as [d|]; [|done].
  destruct ((INT_MIN <=? (if neg then - d else d))
            && ((if neg then - d else d) <=? INT_MAX)) eqn:Hr; [|done].
  intros [= <-]. apply andb_prop in Hr as [?%Z.leb_le ?%Z.leb_le]. done.
Qed.

(** The loop never initialises the encoder. *)
Lemma loop_no_initialize w WIDTH HEIGHT fuel : ∀ t buf,
  Forall (λ e, is_initialize e = false) (loop w WIDTH HEIGHT fuel t buf).1.
Proof.
  induction fuel as [|fuel IH]; intros t buf; [by cbn|].
  cbn [loop]. destruct (valid_at w t); [|by repeat constructor].
  destruct (isRunning_at w (S t)); [|by repeat constructor].
  assert (Forall (λ e, is_initialize e = false)
            (iteration w WIDTH HEIGHT (S (S t)) buf).1) as Hpass.
  { destruct (iteration_shape w WIDTH HEIGHT (S (S t)) buf)
      as (log & Hlog & [(_ & _ & ->) | (buf' & au & _ & _ & ->)]).
    - repeat (constructor; [done|]).
      eapply Forall_impl; [exact Hlog|]. by intros [].
    - repeat (constructor; [done|]). apply Forall_app. split.
      + eapply Forall_impl; [exact Hlog|]. by intros [].
      + constructor; [done|].
        destruct (publish_cases WIDTH HEIGHT au) as [[-> _]|[-> _]];
          by repeat constructor. }
  destruct (iteration w WIDTH HEIGHT (S (S t)) buf) as [tr [buf'|]];
    cbn [fst] in *.
  - specialize (IH (S (S t) + length tr)%nat buf').
    destruct (loop w WIDTH HEIGHT fuel (S (S t) + length tr) buf')
      as [tr' st]. cbn [fst] in *.
    repeat (constructor; [done|]). by apply Forall_app.
  - by repeat (constructor; [done|]).
Qed.

(** [InitializeExt] is only ever called with the parameters that lines
    67-101 derive from the command line. *)
Lemma main_initialize w fuel p :
  EvInitializeExt p ∈ (main w fuel).1 →
  ∃ W H G,
    WIDTH (getCommandlineArguments w) = Some W
    ∧ HEIGHT (getCommandlineArguments w) = Some H
    ∧ GOP (getCommandlineArguments w) = Some G
    ∧ p = parameters W H G (GetDefaultParams w).
Proof.
  unfold main. case_bool_decide as Husage.
  { cbn. intros Hin. apply list_elem_of_singleton in Hin. discriminate. }
  destruct (WIDTH (getCommandlineArguments w)) as [W|];
    [|destruct (HEIGHT _), (GOP _); cbn; intros Hin;
       by apply elem_of_nil in Hin].
  destruct (HEIGHT (getCommandlineArguments w)) as [H|];
    [|destruct (GOP _); cbn; intros Hin; by apply elem_of_nil in Hin].
  destruct (GOP (getCommandlineArguments w)) as [G|];
    [|cbn; intros Hin; by apply elem_of_nil in Hin].
  intros Hin. exists W, H, G. split_and!; [done|done|done|].
  pose proof (loop_no_initialize w W H fuel 0 (h264Buffer W H)) as Hloop.
  destruct (attach_valid w); cbn in Hin; [|elem_cases Hin].
  destruct (WelsCreateSVCEncoder_ok w); cbn in Hin; [|elem_cases Hin].
  case_bool_decide; cbn in Hin; [elem_cases Hin|].
  destruct (stoi (at_key (getCommandlineArguments w) "cid")) as [cid|];
    [|cbn in Hin; elem_cases Hin].
  destruct (loop w W H fuel 0 (h264Buffer W H)) as [ltr st].
  cbn [fst] in Hloop.
  assert (EvInitializeExt p ∉ ltr) as Hnot.
  { intros Hl. rewrite Forall_forall in Hloop. by apply Hloop in Hl. }
  destruct st; cbn in Hin; elem_cases Hin.
Qed.

(** C9.  Whenever [main] initialises the encoder, the width and the
    height of the command line have been read by [std::stoi] and the
    parameters handed to [InitializeExt] carry them as the resolution
    (of the picture and of spatial layer 0); the rate control mode is
    [RC_QUALITY_MODE]; there is one spatial and one temporal layer;
    adaptive quantisation and background detection are on; denoising,
    frame skipping and long-term reference are off; the parameter-set
    id strategy is [CONSTANT_ID]; and the intra period is 10 when
    [--gop] is absent or empty, and the value of [--gop] (as a
    [uint32_t]) otherwise. *)
Theorem encoder_parameters_from_configuration
    (w : World) (fuel : nat) (p : SEncParamExt) :
  EvInitializeExt p ∈ (main w fuel).1 →
  let args := getCommandlineArguments w in
  ∃ wd ht,
    stoi (at_key args "width") = Some wd
    ∧ stoi (at_key args "height") = Some ht
    ∧ iPicWidth p = wd ∧ iPicHeight p = ht
    ∧ iVideoWidth (sSpatialLayers p 0%nat) = wd
    ∧ iVideoHeight (sSpatialLayers p 0%nat) = ht
    ∧ iRCMode p = RC_QUALITY_MODE
    ∧ iSpatialLayerNum p = 1 ∧ iTemporalLayerNum p = 1
    ∧ bEnableAdaptiveQuant p = true
    ∧ bEnableBackgroundDetection p = true
    ∧ bEnableDenoise p = false
    ∧ bEnableFrameSkip p = false
    ∧ bEnableLongTermReference p = false
    ∧ eSpsPpsIdStrategy p = CONSTANT_ID
    ∧ (args !! "gop" = None ∨ args !! "gop" = Some EmptyString →
       uiIntraPeriod p = 10)
    ∧ (∀ s, args !! "gop" = Some s → s ≠ EmptyString →
       ∃ g, stoi s = Some g ∧ uiIntraPeriod p = wrap_uint32 g
            ∧ (0 ≤ g → uiIntraPeriod p = g)).
Proof.
  intros (W & H & G & HW & HH & HG & ->)%main_initialize args.
  fold args in HW, HH, HG. unfold WIDTH, HEIGHT in *.
  destruct (stoi (at_key args "width")) as [wd|] eqn:Hwd; [|done].
  destruct (stoi (at_key args "height")) as [ht|] eqn:Hht; [|done].
  cbn in HW, HH. injection HW as <-. injection HH as <-.
  pose proof (stoi_range _ _ Hwd). pose proof (stoi_range _ _ Hht).
  exists wd, ht. cbn.
  rewrite !wrap_int32_uint32, !wrap_int32_small by done.
  split_and!; try done.
  - unfold GOP, at_key in HG. intros [Hgop|Hgop]; rewrite Hgop in HG;
      cbn in HG; by injection HG as <-.
  - intros s Hs Hne. unfold GOP, at_key in HG. rewrite Hs in HG. cbn in HG.
    rewrite bool_decide_eq_true_2 in HG by (by destruct s).
    destruct (stoi s) as [g|] eqn:Hg; [|done]. cbn in HG.
    injection HG as <-. exists g. split_and!; [done|done|].
    intros Hpos. pose proof (stoi_range _ _ Hg).
    apply wrap_uint32_small. unfold INT_MAX in *. lia.
Qed.

Lemma encoder_parameters_from_configuration_witness :
  EvInitializeExt params_16 ∈ (main small_frame_world 0).1
  ∧ ∃ wd ht,
      stoi (at_key args_16 "width") = Some wd
      ∧ stoi (at_key args_16 "height") = Some ht
      ∧ iPicWidth params_16 = wd ∧ iPicHeight params_16 = ht
      ∧ iVideoWidth (sSpatialLayers params_16 0%nat) = wd
      ∧ iVideoHeight (sSpatialLayers params_16 0%nat) = ht
      ∧ iRCMode params_16 = RC_QUALITY_MODE
      ∧ iSpatialLayerNum params_16 = 1 ∧ iTemporalLayerNum params_16 = 1
      ∧ bEnableAdaptiveQuant params_16 = true
      ∧ bEnableBackgroundDetection params_16 = true
      ∧ bEnableDenoise params_16 = false
      ∧ bEnableFrameSkip params_16 = false
      ∧ bEnableLongTermReference params_16 = false
      ∧ eSpsPpsIdStrategy params_16 = CONSTANT_ID
      ∧ (args_16 !! "gop" = None ∨ args_16 !! "gop" = Some EmptyString →
         uiIntraPeriod params_16 = 10)
      ∧ (∀ s, args_16 !! "gop" = Some s → s ≠ EmptyString →
         ∃ g, stoi s = Some g ∧ uiIntraPeriod params_16 = wrap_uint32 g
              ∧ (0 ≤ g → uiIntraPeriod params_16 = g)).
Proof.
  assert (EvInitializeExt params_16 ∈ (main small_frame_world 0).1) as Hin.
  { apply list_elem_of_In. vm_compute. do 6 right. left. reflexivity. }
  split; [exact Hin|].
  exact (encoder_parameters_from_configuration small_frame_world 0
           params_16 Hin).
Defined.

(** C10.  Whatever the command line and whatever the collaborators do,
    the parameters handed to [InitializeExt] have the frame rate 20, the
    target bit rate 2 500 000 and the maximum bit rate 5 000 000, for
    the stream and for spatial layer 0 alike. *)
Theorem rate_parameters_are_constant
    (w : World) (fuel : nat) (p : SEncParamExt) :
  EvInitializeExt p ∈ (main w fuel).1 →
  fMaxFrameRate p = 20
  ∧ iTargetBitrate p = 2500000
  ∧ iMaxBitrate p = 5000000
  ∧ fFrameRate (sSpatialLayers p 0%nat) = 20
  ∧ iSpatialBitrate (sSpatialLayers p 0%nat) = 2500000
  ∧ iMaxSpatialBitrate (sSpatialLayers p 0%nat) = 5000000.
Proof. by intros (W & H & G & _ & _ & _ & ->)%main_initialize. Qed.

Lemma rate_parameters_are_constant_witness :
  EvInitializeExt params_16 ∈ (main small_frame_world 0).1
  ∧ fMaxFrameRate params_16 = 20
  ∧ iTargetBitrate params_16 = 2500000
  ∧ iMaxBitrate params_16 = 5000000
  ∧ fFrameRate (sSpatialLayers params_16 0%nat) = 20
  ∧ iSpatialBitrate (sSpatialLayers params_16 0%nat) = 2500000
  ∧ iMaxSpatialBitrate (sSpatialLayers params_16 0%nat) = 5000000.
Proof.
  assert (EvInitializeExt params_16 ∈ (main small_frame_world 0).1) as Hin.
  { apply list_elem_of_In. vm_compute. do 6 right. left. reflexivity. }
  split; [exact Hin|].
  exact (rate_parameters_are_constant small_frame_world 0 params_16 Hin).
Defined.

(** * The rest of [main] *)

(** ** The paths through [main] *)

(** Every run of [main] is one of seven: the usage text, an exception of
    [std::stoi] before anything is attached, a failed attach, a failed
    creation of the encoder, refused parameters, an exception of
    [std::stoi] on [--cid], or the loop followed by lines 172-176. *)
Lemma main_cases w fuel :
  let args := getCommandlineArguments w in
  let NAME := at_key args "name" in
  main w fuel = ([EvCerr MsgUsage], Return 1)
  ∨ main w fuel = ([], Threw)
  ∨ ∃ W H G,
      WIDTH args = Some W ∧ HEIGHT args = Some H ∧ GOP args = Some G
      ∧ (attach_valid w = false
         ∧ main w fuel
           = ([EvAttach NAME; EvValid false; EvCerr (MsgAttachFailed NAME)],
              Return 1)
         ∨ attach_valid w = true ∧ WelsCreateSVCEncoder_ok w = false
           ∧ main w fuel
             = ([EvAttach NAME; EvValid true; EvClog MsgAttached;
                 EvCreateEncoder false; EvCerr MsgCreateFailed], Return 1)
         ∨ attach_valid w = true ∧ WelsCreateSVCEncoder_ok w = true
           ∧ (InitializeExt w (parameters W H G (GetDefaultParams w))
              ≠ cmResultSuccess
              ∧ main w fuel
                = (startup w W H G ++ [EvCerr MsgInitFailed], Return 1)
              ∨ InitializeExt w (parameters W H G (GetDefaultParams w))
                = cmResultSuccess
                ∧ (stoi (at_key args "cid") = None
                   ∧ main w fuel = (startup w W H G, Threw)
                   ∨ ∃ cid,
                       stoi (at_key args "cid") = Some cid
                       ∧ main w fuel
                         = (startup w W H G
                              ++ [EvOD4Session (wrap_uint16 cid)]
                              ++ (loop w W H fuel 0 (h264Buffer W H)).1
                              ++ (after_loop
                                    (loop w W H fuel 0 (h264Buffer W H)).2).1,
                            (after_loop
                               (loop w W H fuel 0 (h264Buffer W H)).2).2)))).
Proof.
  intros args NAME. unfold main. fold args. fold NAME.
  case_bool_decide as Husage; [by left|].
  destruct (WIDTH args) as [W|];
    [|right; left; by destruct (HEIGHT args), (GOP args)].
  destruct (HEIGHT args) as [H|]; [|right; left; by destruct (GOP args)].
  destruct (GOP args) as [G|]; [|by right; left].
  right. right. exists W, H, G. split_and!; [done|done|done|].
  destruct (attach_valid w); [|by left].
  right. destruct (WelsCreateSVCEncoder_ok w); cbn [negb]; [|by left].
  right. split_and!; [done|done|].
  case_bool_decide as Hinit.
  { left. split; [congruence|done]. }
  right. split; [done|].
  destruct (stoi (at_key args "cid")) as [cid|]; [|by left].
  right. exists cid. split; [done|].
  destruct (loop w W H fuel 0 (h264Buffer W H)) as [ltr st].
  cbn [fst snd]. destruct st; cbn [after_loop fst snd];
    by rewrite <- ?app_assoc, ?app_nil_r.
Qed.

(** ** Start-up and tear-down *)

(** X1.  [main] prints the usage text and returns 1, calling none of
    its collaborators, exactly when one of [--cid], [--name],
    [--width] and [--height] is missing. *)
Theorem usage_iff_argument_missing (w : World) (fuel : nat) :
  let args := getCommandlineArguments w in
  (args !! "cid" = None ∨ args !! "name" = None
   ∨ args !! "width" = None ∨ args !! "height" = None)
  ↔ main w fuel = ([EvCerr MsgUsage], Return 1).
Proof.
  intros args. split.
  - intros Hmiss. unfold main. fold args.
    rewrite bool_decide_eq_true_2; [done|]. unfold count.
    destruct Hmiss as [->|[->|[->| ->]]]; tauto.
  - intros Hrun. unfold main in Hrun. fold args in Hrun.
    case_bool_decide as Husage.
    + unfold count in Husage.
      destruct (args !! "cid"); [|by left].
      destruct (args !! "name"); [|by right; left].
      destruct (args !! "width"); [|by right; right; left].
      destruct (args !! "height"); [|by right; right; right].
      exfalso. destruct Husage as [?|[?|[?|?]]]; discriminate.
    + exfalso.
      destruct (WIDTH args) as [W|], (HEIGHT args) as [H|], (GOP args);
        try discriminate.
      destruct (attach_valid w); [|discriminate].
      destruct (WelsCreateSVCEncoder_ok w); [|discriminate]. cbn in Hrun.
      case_bool_decide; [discriminate|].
      destruct (stoi (at_key args "cid")); [|discriminate].
      destruct (loop w W H fuel 0 (h264Buffer W H)) as [ltr []];
        discriminate.
Qed.

(** ** What the loop can call *)

Lemma iteration_Forall (Q : event → Prop) w WIDTH HEIGHT t buf :
  Q EvWait → Q EvLock → Q (EvEncodeFrame (sourceFrame WIDTH HEIGHT)) →
  (∀ m, Q (EvCerr m)) → Q EvUnlock →
  (∀ au, au ≠ [] →
     Q (EvSend {| format := "h264"; width := WIDTH; height := HEIGHT;
                  data := au |})) →
  Forall Q (iteration w WIDTH HEIGHT t buf).1.
Proof.
  intros Hw Hl He Hc Hu Hs.
  assert (∀ log, Forall (λ e, is_cerr e = true) log → Forall Q log) as Hlog'.
  { intros log Hlog. eapply Forall_impl; [exact Hlog|].
    intros [] ?; by try apply Hc. }
  destruct (iteration_shape w WIDTH HEIGHT t buf)
    as (log & Hlog & [(_ & _ & ->) | (buf' & au & _ & _ & ->)]).
  - do 3 (constructor; [done|]). by apply Hlog'.
  - do 3 (constructor; [done|]). apply Forall_app. split; [by apply Hlog'|].
    constructor; [done|].
    destruct (publish_cases WIDTH HEIGHT au) as [[-> _]|[-> Hne]];
      [constructor|]. constructor; [by apply Hs|constructor].
Qed.

Lemma loop_Forall (Q : event → Prop) w WIDTH HEIGHT :
  (∀ b, Q (EvValid b)) → (∀ b, Q (EvIsRunning b)) →
  (∀ t buf, Forall Q (iteration w WIDTH HEIGHT t buf).1) →
  ∀ fuel t buf, Forall Q (loop w WIDTH HEIGHT fuel t buf).1.
Proof.
  intros Hv Hr Hpass fuel.
  induction fuel as [|fuel IH]; intros t buf; [by cbn|].
  cbn [loop]. destruct (valid_at w t); [|by repeat constructor].
  destruct (isRunning_at w (S t)); [|by repeat constructor].
  specialize (Hpass (S (S t)) buf).
  destruct (iteration w WIDTH HEIGHT (S (S t)) buf) as [tr [buf'|]];
    cbn [fst] in *.
  - specialize (IH (S (S t) + length tr)%nat buf').
    destruct (loop w WIDTH HEIGHT fuel (S (S t) + length tr) buf')
      as [tr' st]. cbn [fst] in *.
    repeat (constructor; [done|]). by apply Forall_app.
  - by repeat (constructor; [done|]).
Qed.

Lemma loop_no_teardown w WIDTH HEIGHT fuel t buf :
  Forall (λ e, is_teardown e = false) (loop w WIDTH HEIGHT fuel t buf).1.
Proof.
  apply loop_Forall; [done|done|]. intros t' buf'.
  by apply iteration_Forall.
Qed.

Lemma startup_quiet w W H G :
  Forall (λ e, is_loop_call e = false ∧ is_teardown e = false)
    (startup w W H G).
Proof. by repeat constructor. Qed.

(** X2.  With the four required arguments present, [main] ends in an
    exception of [std::stoi], before it has called any collaborator,
    exactly when [--width] or [--height] does not start with a number
    that fits an [int], or [--gop] is given, not empty, and does not. *)
Theorem bad_number_throws_before_attach (w : World) (fuel : nat) :
  let args := getCommandlineArguments w in
  (is_Some (args !! "cid") ∧ is_Some (args !! "name")
   ∧ is_Some (args !! "width") ∧ is_Some (args !! "height"))
  ∧ (stoi (at_key args "width") = None
     ∨ stoi (at_key args "height") = None
     ∨ at_key args "gop" ≠ EmptyString
       ∧ stoi (at_key args "gop") = None)
  ↔ main w fuel = ([], Threw).
Proof.
  intros args.
  assert (GOP args = None
          ↔ at_key args "gop" ≠ EmptyString
            ∧ stoi (at_key args "gop") = None) as Hgop.
  { unfold GOP. destruct (at_key args "gop") as [|c s] eqn:Hs.
    - cbn. split; [done|]. by intros [? _].
    - rewrite bool_decide_eq_true_2 by done.
      destruct (stoi (String c s)); cbn; split; (done || by intros [_ ?]). }
  split.
  - intros [(Hc & Hn & Hw & Hh) Hbad]. unfold main. fold args.
    rewrite bool_decide_eq_false_2.
    2:{ unfold count. destruct Hc as [? ->], Hn as [? ->], Hw as [? ->],
          Hh as [? ->]. intros [?|[?|[?|?]]]; discriminate. }
    unfold WIDTH, HEIGHT.
    destruct Hbad as [->|[->|Hbad%Hgop]].
    + done.
    + by destruct (stoi (at_key args "width")).
    + rewrite Hbad.
      by destruct (stoi (at_key args "width")),
           (stoi (at_key args "height")).
  - intros Hrun. unfold main in Hrun. fold args in Hrun.
    case_bool_decide as Husage; [discriminate|].
    split.
    { unfold count in Husage.
      destruct (args !! "cid"), (args !! "name"), (args !! "width"),
        (args !! "height"); try (exfalso; apply Husage; tauto).
      by repeat split. }
    unfold WIDTH, HEIGHT in Hrun.
    destruct (stoi (at_key args "width")) as [wd|]; [|by left].
    destruct (stoi (at_key args "height")) as [ht|]; [|by right; left].
    right. right. apply Hgop.
    destruct (GOP args) as [G|]; [|done]. exfalso. cbn in Hrun.
    destruct (attach_valid w); [|discriminate].
    destruct (WelsCreateSVCEncoder_ok w); [|discriminate]. cbn in Hrun.
    case_bool_decide; [discriminate|].
    destruct (stoi (at_key args "cid")); [|discriminate].
    destruct (loop w (wrap_uint32 wd) (wrap_uint32 ht) fuel 0
                (h264Buffer (wrap_uint32 wd) (wrap_uint32 ht))) as [ltr []];
      discriminate.
Qed.

(** X3.  [main] returns 0 or 1.  When it returns 1, or ends in an
    exception of [std::stoi], it has never reached the loop: there is
    no [isRunning], [wait], [lock], [EncodeFrame], [unlock] or [send]
    in its trace. *)
Theorem failed_startup_never_enters_loop (w : World) (fuel : nat) :
  (∀ r, (main w fuel).2 = Return r → r = 0 ∨ r = 1)
  ∧ ((main w fuel).2 = Return 1 ∨ (main w fuel).2 = Threw →
     Forall (λ e, is_loop_call e = false) (main w fuel).1).
Proof.
  pose proof (main_cases w fuel) as Hcases. cbn zeta in Hcases.
  destruct Hcases as [->|[->|(W & H & G & _ & _ & _ & Hcases)]].
  { split; [intros r [= <-]; by right|intros _; by repeat constructor]. }
  { split; [done|intros _; constructor]. }
  destruct Hcases as [[_ ->]|[(_ & _ & ->)|(_ & _ & [[_ ->]|[_ Hcases]])]].
  - split; [intros r [= <-]; by right|intros _; by repeat constructor].
  - split; [intros r [= <-]; by right|intros _; by repeat constructor].
  - split; [intros r [= <-]; by right|intros _].
    apply Forall_app. split; [|by repeat constructor].
    eapply Forall_impl; [apply startup_quiet|]. by intros ? [? _].
  - destruct Hcases as [[_ ->]|(cid & _ & ->)].
    + split; [done|intros _].
      eapply Forall_impl; [apply startup_quiet|]. by intros ? [? _].
    + cbn [snd].
      destruct (loop w W H fuel 0 (h264Buffer W H)).2; cbn.
      * split; [intros r [= <-]; by left|]. intros [?|?]; discriminate.
      * split; [done|]. intros [?|?]; discriminate.
      * split; [done|]. intros [?|?]; discriminate.
Qed.

Lemma failed_startup_never_enters_loop_witness :
  (main init_fails_world 3).2 = Return 1
  ∧ Forall (λ e, is_loop_call e = false) (main init_fails_world 3).1.
Proof.
  assert ((main init_fails_world 3).2 = Return 1) as Hret by (by vm_compute).
  split; [exact Hret|].
  apply (failed_startup_never_enters_loop init_fails_world 3). by left.
Defined.

(** X4.  The encoder is uninitialised and destroyed only by a run that
    returns 0: every other run, also one that had created the encoder
    and then found its parameters refused or [--cid] unreadable, ends
    without [Uninitialize] and without [WelsDestroySVCEncoder]. *)
Theorem teardown_only_on_success (w : World) (fuel : nat) :
  (main w fuel).2 ≠ Return 0 →
  Forall (λ e, is_teardown e = false) (main w fuel).1.
Proof.
  pose proof (main_cases w fuel) as Hcases. cbn zeta in Hcases.
  destruct Hcases as [->|[->|(W & H & G & _ & _ & _ & Hcases)]];
    [by repeat constructor|by constructor|].
  destruct Hcases as [[_ ->]|[(_ & _ & ->)|(_ & _ & [[_ ->]|[_ Hcases]])]];
    [by repeat constructor|by repeat constructor| |].
  - intros _. apply Forall_app. split; [|by repeat constructor].
    eapply Forall_impl; [apply startup_quiet|]. by intros ? [_ ?].
  - destruct Hcases as [[_ ->]|(cid & _ & ->)].
    + intros _. eapply Forall_impl; [apply startup_quiet|]. by intros ? [_ ?].
    + cbn [fst snd].
      pose proof (loop_no_teardown w W H fuel 0 (h264Buffer W H)) as Hloop.
      destruct (loop w W H fuel 0 (h264Buffer W H)) as [ltr st].
      cbn [fst snd] in *. intros Hst.
      assert ((after_loop st).1 = []) as -> by (by destruct st).
      rewrite app_nil_r. apply Forall_app. split.
      { eapply Forall_impl; [apply startup_quiet|]. by intros ? [_ ?]. }
      by constructor.
Qed.

Lemma teardown_only_on_success_witness :
  (main init_fails_world 3).2 ≠ Return 0
  ∧ EvCreateEncoder true ∈ (main init_fails_world 3).1
  ∧ Forall (λ e, is_teardown e = false) (main init_fails_world 3).1.
Proof.
  assert ((main init_fails_world 3).2 ≠ Return 0) as Hret
    by (vm_compute; discriminate).
  split; [exact Hret|]. split.
  { apply list_elem_of_In. vm_compute. do 3 right. left. reflexivity. }
  exact (teardown_only_on_success init_fails_world 3 Hret).
Defined.

(** X5.  A run that returns 0 had created the encoder, and its last two
    calls are [Uninitialize] and [WelsDestroySVCEncoder], in this order;
    neither is called before. *)
Theorem teardown_once_in_order (w : World) (fuel : nat) :
  (main w fuel).2 = Return 0 →
  ∃ pre,
    (main w fuel).1 = pre ++ [EvUninitialize; EvDestroyEncoder]
    ∧ EvCreateEncoder true ∈ pre
    ∧ Forall (λ e, is_teardown e = false) pre.
Proof.
  pose proof (main_cases w fuel) as Hcases. cbn zeta in Hcases.
  destruct Hcases as [->|[->|(W & H & G & _ & _ & _ & Hcases)]];
    [done|done|].
  destruct Hcases as [[_ ->]|[(_ & _ & ->)|(_ & _ & [[_ ->]|[_ Hcases]])]];
    [done|done|done|].
  destruct Hcases as [[_ ->]|(cid & _ & ->)]; [done|].
  cbn [fst snd].
  pose proof (loop_no_teardown w W H fuel 0 (h264Buffer W H)) as Hloop.
  destruct (loop w W H fuel 0 (h264Buffer W H)) as [ltr st].
  cbn [fst snd] in *. destruct st; [|done|done]. intros _.
  exists (startup w W H G ++ [EvOD4Session (wrap_uint16 cid)] ++ ltr).
  split_and!.
  - cbn [after_loop fst]. by rewrite <- !app_assoc.
  - apply elem_of_app. left. unfold startup.
    do 3 apply list_elem_of_further. apply list_elem_of_here.
  - apply Forall_app. split.
    { eapply Forall_impl; [apply startup_quiet|]. by intros ? [_ ?]. }
    by constructor.
Qed.

Lemma teardown_once_in_order_witness :
  (main lost_during_wait 2).2 = Return 0
  ∧ ∃ pre,
      (main lost_during_wait 2).1 = pre ++ [EvUninitialize; EvDestroyEncoder]
      ∧ EvCreateEncoder true ∈ pre
      ∧ Forall (λ e, is_teardown e = false) pre.
Proof.
  assert ((main lost_during_wait 2).2 = Return 0) as Hret by (by vm_compute).
  split; [exact Hret|].
  exact (teardown_once_in_order lost_during_wait 2 Hret).
Defined.

(** ** What a whole run sends and encodes *)

(** A call of the loop is only made after a start-up in which every
    step succeeded, and it is a call of [loop]. *)
Lemma main_loop_call w fuel e :
  e ∈ (main w fuel).1 → is_loop_call e = true →
  ∃ W H G,
    WIDTH (getCommandlineArguments w) = Some W
    ∧ HEIGHT (getCommandlineArguments w) = Some H
    ∧ GOP (getCommandlineArguments w) = Some G
    ∧ attach_valid w = true ∧ WelsCreateSVCEncoder_ok w = true
    ∧ InitializeExt w (parameters W H G (GetDefaultParams w))
      = cmResultSuccess
    ∧ (main w fuel).1
      = startup w W H G
        ++ [EvOD4Session
              (wrap_uint16
                 (default 0 (stoi (at_key (getCommandlineArguments w)
                                     "cid"))))]
        ++ (loop w W H fuel 0 (h264Buffer W H)).1
        ++ (after_loop (loop w W H fuel 0 (h264Buffer W H)).2).1
    ∧ e ∈ (loop w W H fuel 0 (h264Buffer W H)).1.
Proof.
  intros Hin Hcall.
  pose proof (main_cases w fuel) as Hcases. cbn zeta in Hcases.
  destruct Hcases as [Hm|[Hm|(W & H & G & HW & HH & HG & Hcases)]].
  1,2: rewrite Hm in Hin; cbn in Hin; not_in_trace Hin Hcall.
  destruct Hcases
    as [[_ Hm]|[(_ & _ & Hm)|(Ha & Hc & [[_ Hm]|[Hi Hcases]])]];
    [rewrite Hm in Hin; unfold startup in Hin; cbn in Hin;
     not_in_trace Hin Hcall..|].
  destruct Hcases as [[_ Hm]|(cid & Hcid & Hm)];
    [rewrite Hm in Hin; unfold startup in Hin; cbn in Hin;
     not_in_trace Hin Hcall|].
  exists W, H, G. rewrite Hcid. cbn [default].
  split_and!; [done..|by rewrite Hm|].
  rewrite Hm in Hin. cbn [fst] in Hin.
  destruct (loop w W H fuel 0 (h264Buffer W H)) as [ltr st].
  cbn [fst snd] in *.
  apply elem_of_app in Hin as [Hin|Hin];
    [unfold startup in Hin; not_in_trace Hin Hcall|].
  apply elem_of_app in Hin as [Hin|Hin]; [not_in_trace Hin Hcall|].
  apply elem_of_app in Hin as [Hin|Hin]; [done|].
  destruct st; cbn in Hin; not_in_trace Hin Hcall.
Qed.

Lemma elem_of_startup_initialize w W H G :
  EvInitializeExt (parameters W H G (GetDefaultParams w)) ∈ startup w W H G.
Proof.
  unfold startup. do 6 apply list_elem_of_further. apply list_elem_of_here.
Qed.

(** X6.  Every record that a run of [main] sends, in whichever pass,
    has the format "h264", the width and the height that [main] read
    from the command line, and data that is not empty; and it is sent
    by an encoder whose initialisation had succeeded. *)
Theorem every_send_of_a_run (w : World) (fuel : nat) (ir : ImageReading) :
  EvSend ir ∈ (main w fuel).1 →
  let args := getCommandlineArguments w in
  ∃ W H G,
    WIDTH args = Some W ∧ HEIGHT args = Some H ∧ GOP args = Some G
    ∧ InitializeExt w (parameters W H G (GetDefaultParams w))
      = cmResultSuccess
    ∧ format ir = "h264" ∧ width ir = W ∧ height ir = H ∧ data ir ≠ [].
Proof.
  intros Hin args.
  destruct (main_loop_call w fuel _ Hin eq_refl)
    as (W & H & G & HW & HH & HG & _ & _ & Hinit & _ & Hloop).
  exists W, H, G. split_and!; [done..| | | |];
    (assert (Forall (λ e, ∀ ir, e = EvSend ir →
               format ir = "h264" ∧ width ir = W ∧ height ir = H
               ∧ data ir ≠ [])
               (loop w W H fuel 0 (h264Buffer W H)).1) as Hall;
     [apply loop_Forall; [done|done|]; intros t buf;
      apply iteration_Forall; try done; by intros au Hne ir' [= <-]|];
     rewrite Forall_forall in Hall;
     by destruct (Hall _ Hloop ir eq_refl) as (? & ? & ? & ?)).
Qed.

Lemma every_send_of_a_run_witness :
  EvSend {| format := "h264"; width := 16; height := 16;
            data := ordered_concatenation small_frame |}
  ∈ (main lost_during_wait 2).1
  ∧ ∃ W H G,
      WIDTH args_16 = Some W ∧ HEIGHT args_16 = Some H
      ∧ GOP args_16 = Some G
      ∧ InitializeExt lost_during_wait
          (parameters W H G (GetDefaultParams lost_during_wait))
        = cmResultSuccess
      ∧ format {| format := "h264"; width := 16; height := 16;
                  data := ordered_concatenation small_frame |} = "h264"
      ∧ 16 = W ∧ 16 = H ∧ ordered_concatenation small_frame ≠ [].
Proof.
  assert (EvSend {| format := "h264"; width := 16; height := 16;
                    data := ordered_concatenation small_frame |}
          ∈ (main lost_during_wait 2).1) as Hin.
  { apply list_elem_of_In. vm_compute. do 14 right. left. reflexivity. }
  split; [exact Hin|].
  exact (every_send_of_a_run lost_during_wait 2 _ Hin).
Defined.

(** X7.  Every picture that a run of [main] hands to [EncodeFrame] is
    in the I420 format and has the width and the height that the
    encoder was initialised with, which are the integers [std::stoi]
    read from [--width] and [--height]. *)
Theorem every_frame_matches_the_encoder
    (w : World) (fuel : nat) (src : SSourcePicture) :
  EvEncodeFrame src ∈ (main w fuel).1 →
  let args := getCommandlineArguments w in
  ∃ p wd ht,
    EvInitializeExt p ∈ (main w fuel).1
    ∧ stoi (at_key args "width") = Some wd
    ∧ stoi (at_key args "height") = Some ht
    ∧ iColorFormat src = videoFormatI420
    ∧ src_iPicWidth src = wd ∧ iPicWidth p = wd
    ∧ src_iPicHeight src = ht ∧ iPicHeight p = ht
    ∧ src = sourceFrame (wrap_uint32 wd) (wrap_uint32 ht).
Proof.
  intros Hin args.
  destruct (main_loop_call w fuel _ Hin eq_refl)
    as (W & H & G & HW & HH & HG & _ & _ & _ & Htr & Hloop).
  fold args in HW, HH. unfold WIDTH, HEIGHT in HW, HH.
  destruct (stoi (at_key args "width")) as [wd|] eqn:Hwd; [|done].
  destruct (stoi (at_key args "height")) as [ht|] eqn:Hht; [|done].
  cbn in HW, HH. injection HW as <-. injection HH as <-.
  pose proof (stoi_range _ _ Hwd). pose proof (stoi_range _ _ Hht).
  assert (src = sourceFrame (wrap_uint32 wd) (wrap_uint32 ht)) as ->.
  { assert (Forall (λ e, ∀ s, e = EvEncodeFrame s →
               s = sourceFrame (wrap_uint32 wd) (wrap_uint32 ht))
               (loop w (wrap_uint32 wd) (wrap_uint32 ht) fuel 0
                  (h264Buffer (wrap_uint32 wd) (wrap_uint32 ht))).1) as Hall.
    { apply loop_Forall; [done|done|]. intros t buf.
      apply iteration_Forall; try done. by intros s [= <-]. }
    rewrite Forall_forall in Hall. by apply (Hall _ Hloop). }
  exists (parameters (wrap_uint32 wd) (wrap_uint32 ht) G (GetDefaultParams w)),
    wd, ht.
  split_and!; try done.
  - rewrite Htr. apply elem_of_app. left. apply elem_of_startup_initialize.
  - cbn. by rewrite wrap_int32_uint32, wrap_int32_small.
  - cbn. by rewrite wrap_int32_uint32, wrap_int32_small.
  - cbn. by rewrite wrap_int32_uint32, wrap_int32_small.
  - cbn. by rewrite wrap_int32_uint32, wrap_int32_small.
Qed.

Lemma every_frame_matches_the_encoder_witness :
  EvEncodeFrame (sourceFrame 16 16) ∈ (main lost_during_wait 2).1
  ∧ ∃ p wd ht,
      EvInitializeExt p ∈ (main lost_during_wait 2).1
      ∧ stoi (at_key args_16 "width") = Some wd
      ∧ stoi (at_key args_16 "height") = Some ht
      ∧ iColorFormat (sourceFrame 16 16) = videoFormatI420
      ∧ src_iPicWidth (sourceFrame 16 16) = wd ∧ iPicWidth p = wd
      ∧ src_iPicHeight (sourceFrame 16 16) = ht ∧ iPicHeight p = ht
      ∧ sourceFrame 16 16 = sourceFrame (wrap_uint32 wd) (wrap_uint32 ht).
Proof.
  assert (EvEncodeFrame (sourceFrame 16 16) ∈ (main lost_during_wait 2).1)
    as Hin.
  { apply list_elem_of_In. vm_compute. do 12 right. left. reflexivity. }
  split; [exact Hin|].
  exact (every_frame_matches_the_encoder lost_during_wait 2 _ Hin).
Defined.

(** ** The lock *)

Lemma lock_protocol_app tr1 : ∀ b tr2,
  lock_protocol b (tr1 ++ tr2)
  = b' ← lock_protocol b tr1; lock_protocol b' tr2.
Proof.
  induction tr1 as [|e tr1 IH]; intros b tr2; [done|].
  destruct e, b; cbn; by rewrite ?IH.
Qed.

Lemma lock_protocol_log b log :
  Forall (λ e, is_cerr e = true) log → lock_protocol b log = Some b.
Proof.
  induction 1 as [|e log He _ IH]; [done|]. by destruct e.
Qed.

Lemma iteration_protocol w WIDTH HEIGHT t buf :
  lock_protocol false (iteration w WIDTH HEIGHT t buf).1
  = Some (if (iteration w WIDTH HEIGHT t buf).2 is None then true else false).
Proof.
  destruct (iteration_shape w WIDTH HEIGHT t buf)
    as (log & Hlog & [(-> & _ & ->) | (buf' & au & -> & _ & ->)]).
  - cbn. by apply lock_protocol_log.
  - cbn. rewrite lock_protocol_app, (lock_protocol_log _ _ Hlog). cbn.
    by destruct (publish_cases WIDTH HEIGHT au) as [[-> _]|[-> _]].
Qed.

Lemma loop_protocol w WIDTH HEIGHT fuel : ∀ t buf,
  lock_protocol false (loop w WIDTH HEIGHT fuel t buf).1
  = Some (if (loop w WIDTH HEIGHT fuel t buf).2 is Undefined
          then true else false).
Proof.
  induction fuel as [|fuel IH]; intros t buf; [done|].
  cbn [loop]. destruct (valid_at w t); [|done].
  destruct (isRunning_at w (S t)); [|done].
  pose proof (iteration_protocol w WIDTH HEIGHT (S (S t)) buf) as Hpass.
  destruct (iteration w WIDTH HEIGHT (S (S t)) buf) as [tr [buf'|]];
    cbn [fst snd] in *; [|done].
  specialize (IH (S (S t) + length tr)%nat buf').
  destruct (loop w WIDTH HEIGHT fuel (S (S t) + length tr) buf')
    as [tr' st]. cbn [fst snd] in *. cbn.
  by rewrite lock_protocol_app, Hpass.
Qed.

(** X8.  In every run of [main] the lock of the shared memory is taken
    only when it is free and released only when it is held;
    [EncodeFrame] is only called with the lock held, and [valid],
    [isRunning], [wait] and [send] only without it.  At the end of the
    run the lock is free, unless the run stopped in a copy that the
    model cannot follow. *)
Theorem lock_discipline (w : World) (fuel : nat) :
  lock_protocol false (main w fuel).1
  = Some (if (main w fuel).2 is UndefinedBehaviour then true else false).
Proof.
  pose proof (main_cases w fuel) as Hcases. cbn zeta in Hcases.
  destruct Hcases as [->|[->|(W & H & G & _ & _ & _ & Hcases)]];
    [done|done|].
  destruct Hcases as [[_ ->]|[(_ & _ & ->)|(_ & _ & [[_ ->]|[_ Hcases]])]];
    [done|done|done|].
  destruct Hcases as [[_ ->]|(cid & _ & ->)]; [done|].
  cbn [fst snd]. unfold startup. cbn.
  rewrite lock_protocol_app, loop_protocol.
  by destruct (loop w W H fuel 0 (h264Buffer W H)).2.
Qed.

(** ** Counting the calls of the loop *)

Lemma iteration_lock_counts w WIDTH HEIGHT t buf :
  count_if is_lock (iteration w WIDTH HEIGHT t buf).1 = 1%nat
  ∧ (count_if is_unlock (iteration w WIDTH HEIGHT t buf).1 ≤ 1)%nat
  ∧ (count_if is_send (iteration w WIDTH HEIGHT t buf).1 ≤ 1)%nat.
Proof.
  destruct (iteration_shape w WIDTH HEIGHT t buf)
    as (log & Hlog & [(_ & _ & ->) | (buf' & au & _ & _ & ->)]).
  - cbn. rewrite !(count_if_log _ log) by done. lia.
  - cbn. rewrite !count_if_app, !(count_if_log _ log) by done.
    destruct (publish_cases WIDTH HEIGHT au) as [[-> _]|[-> _]]; cbn; lia.
Qed.

(** X9.  Whatever the collaborators do, the loop calls [lock] and
    [EncodeFrame] once for each [wait], never unlocks more often than it
    locks, and sends at most one record for each frame it encodes. *)
Theorem one_encode_per_wait
    (w : World) (WIDTH HEIGHT : Z) (fuel t : nat) (buf : list Byte.byte) :
  let tr := (loop w WIDTH HEIGHT fuel t buf).1 in
  count_if is_lock tr = count_if is_wait tr
  ∧ count_if is_encode tr = count_if is_wait tr
  ∧ (count_if is_unlock tr ≤ count_if is_lock tr)%nat
  ∧ (count_if is_send tr ≤ count_if is_encode tr)%nat.
Proof.
  revert t buf. induction fuel as [|fuel IH]; intros t buf; [by cbn|].
  cbn [loop]. destruct (valid_at w t); [|by cbn].
  destruct (isRunning_at w (S t)); [|by cbn].
  destruct (iteration_counts w WIDTH HEIGHT (S (S t)) buf) as [Hw He].
  destruct (iteration_lock_counts w WIDTH HEIGHT (S (S t)) buf)
    as (Hl & Hu & Hs).
  destruct (iteration w WIDTH HEIGHT (S (S t)) buf) as [tr [buf'|]];
    cbn [fst snd] in *.
  - specialize (IH (S (S t) + length tr)%nat buf').
    destruct (loop w WIDTH HEIGHT fuel (S (S t) + length tr) buf')
      as [tr' st]. cbn [fst snd] in *. cbn zeta in *.
    destruct IH as (IHl & IHe & IHu & IHs).
    cbn. rewrite !count_if_app. lia.
  - cbn. lia.
Qed.

(** X10.  Let the layers of every successful encode that is not a skip
    be as the engine promises, with sizes that add up in an [int].
    Then no outcome of an encode (a failure, a skip, a frame of any
    size, also one larger than the buffer) ends the loop: after [fuel]
    passes the loop either is still running, having called [wait]
    [fuel] times, or it has ended through its condition, its last call
    being a [valid] that returned false or, after a [valid] that
    returned true, an [isRunning] that returned false. *)
Theorem loop_ends_only_by_its_condition
    (w : World) (WIDTH HEIGHT : Z) (fuel t : nat) (buf : list Byte.byte) :
  (∀ t', let r := EncodeFrame_at w t' (sourceFrame WIDTH HEIGHT) in
         r.1 = cmResultSuccess → eFrameType r.2 ≠ videoFrameTypeSkip →
         wf_frame r.2 = true ∧ nal_length_sum r.2 ≤ INT_MAX) →
  (loop w WIDTH HEIGHT fuel t buf).2 = OutOfFuel
  ∧ count_if is_wait (loop w WIDTH HEIGHT fuel t buf).1 = fuel
  ∨ (loop w WIDTH HEIGHT fuel t buf).2 = Finished
    ∧ ∃ pre,
        (loop w WIDTH HEIGHT fuel t buf).1 = pre ++ [EvValid false]
        ∧ valid_at w (t + length pre) = false
        ∨ (loop w WIDTH HEIGHT fuel t buf).1
          = pre ++ [EvValid true; EvIsRunning false]
          ∧ valid_at w (t + length pre) = true
          ∧ isRunning_at w (S (t + length pre)) = false.
Proof.
  intros Hengine. revert t buf.
  induction fuel as [|fuel IH]; intros t buf; [by left|].
  cbn [loop]. destruct (valid_at w t) eqn:Hv.
  2:{ right. split; [done|]. exists []. left. cbn. by rewrite Nat.add_0_r. }
  destruct (isRunning_at w (S t)) eqn:Hr.
  2:{ right. split; [done|]. exists []. right. cbn. by rewrite Nat.add_0_r. }
  assert (is_Some (iteration w WIDTH HEIGHT (S (S t)) buf).2) as [buf' Hend].
  { apply iteration_runs_to_end. cbn zeta.
    specialize (Hengine (S (S t) + 2)%nat). cbn zeta in Hengine.
    destruct (EncodeFrame_at w (S (S t) + 2)%nat (sourceFrame WIDTH HEIGHT))
      as [result frameInfo]. cbn [fst snd] in *.
    destruct (decide (result = cmResultSuccess)); [|by left].
    destruct (decide (eFrameType frameInfo = videoFrameTypeSkip));
      [by right; left|]. right. right. by apply Hengine. }
  destruct (iteration_counts w WIDTH HEIGHT (S (S t)) buf) as [Hw _].
  destruct (iteration w WIDTH HEIGHT (S (S t)) buf) as [tr r].
  cbn [fst snd] in *. subst r.
  specialize (IH (S (S t) + length tr)%nat buf').
  destruct (loop w WIDTH HEIGHT fuel (S (S t) + length tr) buf')
    as [tr' st]. cbn [fst snd] in *.
  destruct IH as [[-> Hcount]|[-> [pre Hpre]]].
  - left. split; [done|]. cbn. rewrite count_if_app. lia.
  - right. split; [done|].
    exists (EvValid true :: EvIsRunning true :: tr ++ pre).
    cbn [length]. rewrite length_app.
    replace (t + S (S (length tr + length pre)))%nat
      with (S (S t) + length tr + length pre)%nat by lia.
    destruct Hpre as [[-> Hend']|(-> & Hend' & Hend'')].
    + left. split; [cbn; by rewrite app_assoc|done].
    + right. split; [cbn; by rewrite app_assoc|done].
Qed.

Lemma oversized_world_engine t' :
  let r := EncodeFrame_at oversized_world t' (sourceFrame 16 16) in
  r.1 = cmResultSuccess → eFrameType r.2 ≠ videoFrameTypeSkip →
  wf_frame r.2 = true ∧ nal_length_sum r.2 ≤ INT_MAX.
Proof. intros r _ _. split; by vm_compute. Qed.

Lemma loop_ends_only_by_its_condition_witness :
  (∀ t', let r := EncodeFrame_at oversized_world t' (sourceFrame 16 16) in
         r.1 = cmResultSuccess → eFrameType r.2 ≠ videoFrameTypeSkip →
         wf_frame r.2 = true ∧ nal_length_sum r.2 ≤ INT_MAX)
  ∧ ((loop oversized_world 16 16 2 0 (h264Buffer 16 16)).2 = OutOfFuel
     ∧ count_if is_wait (loop oversized_world 16 16 2 0 (h264Buffer 16 16)).1
       = 2%nat
     ∨ (loop oversized_world 16 16 2 0 (h264Buffer 16 16)).2 = Finished
       ∧ ∃ pre,
           (loop oversized_world 16 16 2 0 (h264Buffer 16 16)).1
           = pre ++ [EvValid false]
           ∧ valid_at oversized_world (0 + length pre) = false
           ∨ (loop oversized_world 16 16 2 0 (h264Buffer 16 16)).1
             = pre ++ [EvValid true; EvIsRunning false]
             ∧ valid_at oversized_world (0 + length pre) = true
             ∧ isRunning_at oversized_world (S (0 + length pre)) = false).
Proof.
  split; [exact oversized_world_engine|].
  exact (loop_ends_only_by_its_condition oversized_world 16 16 2 0
           (h264Buffer 16 16) oversized_world_engine).
Defined.

(** The loop of [oversized_world]: the frame of 300 bytes is copied,
    the lock is released, the 300 bytes are sent, and the loop ends at
    its next head. *)
Example oversized_frame_run :
  loop oversized_world 16 16 2 0 (h264Buffer 16 16)
  = ([EvValid true; EvIsRunning true; EvWait; EvLock;
      EvEncodeFrame (sourceFrame 16 16); EvUnlock;
      EvSend {| format := "h264"; width := 16; height := 16;
                data := replicate 300 Byte.x65 |};
      EvValid false], Finished).
Proof. by vm_compute. Qed.

(** ** Stopping the session *)

Section session_stopped.
Context (w : World) (WIDTH HEIGHT : Z) (t_off : nat).
Hypothesis stopped : ∀ t, (t_off ≤ t)%nat → isRunning_at w t = false.

Lemma loop_quiet_when_stopped p fuel t buf :
  (∀ b, p (EvValid b) = false) → (∀ b, p (EvIsRunning b) = false) →
  (t_off ≤ S t)%nat →
  count_if p (loop w WIDTH HEIGHT fuel t buf).1 = 0%nat.
Proof.
  intros Hv Hr Ht. destruct fuel as [|fuel]; [done|].
  cbn [loop]. destruct (valid_at w t); [|cbn; by rewrite Hv].
  rewrite stopped by done. cbn. by rewrite Hv, Hr.
Qed.

Lemma loop_after_stop p fuel : ∀ t buf,
  (∀ b, p (EvValid b) = false) → (∀ b, p (EvIsRunning b) = false) →
  (∀ t' buf', count_if p (iteration w WIDTH HEIGHT t' buf').1 ≤ 1)%nat →
  (count_if p (from_clock t_off t (loop w WIDTH HEIGHT fuel t buf).1)
   ≤ 1)%nat.
Proof.
  intros t buf Hv Hr Hpass. revert t buf.
  induction fuel as [|fuel IH]; intros t buf; [cbn; unfold from_clock;
    rewrite drop_nil; cbn; lia|].
  cbn [loop]. destruct (valid_at w t).
  2:{ etrans; [apply count_if_drop|]. cbn. rewrite Hv. lia. }
  destruct (isRunning_at w (S t)) eqn:Hrun.
  2:{ etrans; [apply count_if_drop|]. cbn. rewrite Hv, Hr. lia. }
  assert (S t < t_off)%nat as Hbefore.
  { destruct (decide (t_off ≤ S t)%nat) as [Hle|]; [|lia].
    rewrite stopped in Hrun by done. discriminate. }
  pose proof (Hpass (S (S t)) buf) as Hone.
  destruct (iteration w WIDTH HEIGHT (S (S t)) buf) as [tr [buf'|]];
    cbn [fst snd] in *.
  2:{ etrans; [apply count_if_drop|]. cbn. rewrite Hv, Hr. lia. }
  specialize (IH (S (S t) + length tr)%nat buf').
  pose proof (loop_quiet_when_stopped p fuel (S (S t) + length tr) buf' Hv Hr)
    as Hquiet.
  destruct (loop w WIDTH HEIGHT fuel (S (S t) + length tr) buf')
    as [tr' st]. cbn [fst snd] in *.
  destruct (decide (t_off ≤ S (S (S t) + length tr))%nat) as [Hle|Hgt].
  - etrans; [apply count_if_drop|]. cbn.
    rewrite Hv, Hr, count_if_app, Hquiet by done. lia.
  - unfold from_clock in *.
    replace (t_off - t)%nat
      with (S (S (length tr + (t_off - (S (S t) + length tr)))))%nat
      by lia.
    cbn [drop]. rewrite drop_app_add. exact IH.
Qed.

Lemma loop_ends_when_stopped fuel : ∀ t buf,
  (t_off - t < fuel)%nat →
  (loop w WIDTH HEIGHT fuel t buf).2 ≠ OutOfFuel.
Proof.
  induction fuel as [|fuel IH]; intros t buf Hfuel; [lia|].
  cbn [loop]. destruct (valid_at w t); [|done].
  destruct (isRunning_at w (S t)) eqn:Hrun; [|done].
  assert (S t < t_off)%nat as Hbefore.
  { destruct (decide (t_off ≤ S t)%nat) as [Hle|]; [|lia].
    rewrite stopped in Hrun by done. discriminate. }
  destruct (iteration w WIDTH HEIGHT (S (S t)) buf) as [tr [buf'|]];
    [|done].
  specialize (IH (S (S t) + length tr)%nat buf').
  destruct (loop w WIDTH HEIGHT fuel (S (S t) + length tr) buf')
    as [tr' st]. cbn [fst snd] in *. apply IH. lia.
Qed.
End session_stopped.

(** X11.  Let the session not be running from clock [t_off] on.  A loop
    head reached from then on ends the loop without a [wait]; the loop
    needs no more than [t_off + 1] passes to come to its end (or to a
    copy that the model cannot follow); and from clock [t_off] on it calls
    [wait] and [EncodeFrame] at most once and sends at most one record,
    in the pass that was under way when the session stopped. *)
Theorem loop_ends_after_session_stops
    (w : World) (WIDTH HEIGHT : Z) (t_off : nat) :
  (∀ t, (t_off ≤ t)%nat → isRunning_at w t = false) →
  (∀ fuel t buf, (t_off ≤ S t)%nat →
     (loop w WIDTH HEIGHT (S fuel) t buf).2 = Finished
     ∧ count_if is_wait (loop w WIDTH HEIGHT (S fuel) t buf).1 = 0%nat)
  ∧ ∀ fuel buf, (t_off < fuel)%nat →
      (loop w WIDTH HEIGHT fuel 0 buf).2 ≠ OutOfFuel
      ∧ (count_if is_wait
           (from_clock t_off 0 (loop w WIDTH HEIGHT fuel 0 buf).1) ≤ 1)%nat
      ∧ (count_if is_encode
           (from_clock t_off 0 (loop w WIDTH HEIGHT fuel 0 buf).1) ≤ 1)%nat
      ∧ (count_if is_send
           (from_clock t_off 0 (loop w WIDTH HEIGHT fuel 0 buf).1) ≤ 1)%nat.
Proof.
  intros Hstop. split.
  - intros fuel t buf Ht. split.
    + cbn [loop]. destruct (valid_at w t); [|done].
      by rewrite Hstop by done.
    + by apply (loop_quiet_when_stopped w WIDTH HEIGHT t_off Hstop).
  - intros fuel buf Hfuel. split_and!.
    + apply (loop_ends_when_stopped w WIDTH HEIGHT t_off Hstop). lia.
    + apply (loop_after_stop w WIDTH HEIGHT t_off Hstop); [done|done|].
      intros t' buf'. by rewrite (proj1 (iteration_counts _ _ _ _ _)).
    + apply (loop_after_stop w WIDTH HEIGHT t_off Hstop); [done|done|].
      intros t' buf'. by rewrite (proj2 (iteration_counts _ _ _ _ _)).
    + apply (loop_after_stop w WIDTH HEIGHT t_off Hstop); [done|done|].
      intros t' buf'. apply iteration_lock_counts.
Qed.

Lemma stopped_during_wait_stopped t :
  (3 ≤ t)%nat → isRunning_at stopped_during_wait t = false.
Proof. intros Ht. cbn. by rewrite bool_decide_eq_false_2 by lia. Qed.

Lemma loop_ends_after_session_stops_witness :
  (∀ t, (3 ≤ t)%nat → isRunning_at stopped_during_wait t = false)
  ∧ (∀ fuel t buf, (3 ≤ S t)%nat →
       (loop stopped_during_wait 16 16 (S fuel) t buf).2 = Finished
       ∧ count_if is_wait (loop stopped_during_wait 16 16 (S fuel) t buf).1
         = 0%nat)
  ∧ ∀ fuel buf, (3 < fuel)%nat →
      (loop stopped_during_wait 16 16 fuel 0 buf).2 ≠ OutOfFuel
      ∧ (count_if is_wait
           (from_clock 3 0 (loop stopped_during_wait 16 16 fuel 0 buf).1)
         ≤ 1)%nat
      ∧ (count_if is_encode
           (from_clock 3 0 (loop stopped_during_wait 16 16 fuel 0 buf).1)
         ≤ 1)%nat
      ∧ (count_if is_send
           (from_clock 3 0 (loop stopped_during_wait 16 16 fuel 0 buf).1)
         ≤ 1)%nat.
Proof.
  split; [exact stopped_during_wait_stopped|].
  apply (loop_ends_after_session_stops stopped_during_wait 16 16 3).
  exact stopped_during_wait_stopped.
Defined.

(** The bound of X11 is met: the session of [stopped_during_wait] stops
    at clock 3 and the record of the pass under way is still sent, at
    clock 6. *)
Example send_after_session_stopped :
  loop stopped_during_wait 16 16 5 0 (h264Buffer 16 16)
  = ([EvValid true; EvIsRunning true; EvWait; EvLock;
      EvEncodeFrame (sourceFrame 16 16); EvUnlock;
      EvSend {| format := "h264"; width := 16; height := 16;
                data := ordered_concatenation small_frame |};
      EvValid true; EvIsRunning false], Finished).
Proof. by vm_compute. Qed.

(** ** Edges of the assembly *)

(** X12.  A successful encode that is not a skip but whose NAL units
    have no bytes at all (no layer, no NAL unit, or only empty ones)
    is not published: the pass is [wait], [lock], [EncodeFrame],
    [unlock], and the buffer is as it was. *)
Theorem empty_access_unit_is_not_sent
    (w : World) (WIDTH HEIGHT : Z) (t : nat) (buf : list Byte.byte)
    (frameInfo : SFrameBSInfo) :
  EncodeFrame_at w (t + 2)%nat (sourceFrame WIDTH HEIGHT)
  = (cmResultSuccess, frameInfo) →
  eFrameType frameInfo ≠ videoFrameTypeSkip →
  wf_frame frameInfo = true →
  nal_length_sum frameInfo = 0 →
  iteration w WIDTH HEIGHT t buf
  = ([EvWait; EvLock; EvEncodeFrame (sourceFrame WIDTH HEIGHT); EvUnlock],
     Some buf).
Proof.
  intros Henc Hskip Hwf Hsum.
  rewrite (iteration_success _ _ _ _ _ frameInfo)
    by (done || rewrite Hsum; done).
  pose proof (ordered_concatenation_length _ Hwf) as Hlen.
  rewrite Hsum in *.
  destruct (ordered_concatenation frameInfo); [|done].
  cbn. by rewrite take_ge.
Qed.

Lemma empty_access_unit_is_not_sent_witness :
  (EncodeFrame_at (world_of (λ _, true) (cmResultSuccess, hollow_frame))
     (2 + 2)%nat (sourceFrame 16 16) = (cmResultSuccess, hollow_frame)
   ∧ eFrameType hollow_frame ≠ videoFrameTypeSkip
   ∧ wf_frame hollow_frame = true
   ∧ nal_length_sum hollow_frame = 0)
  ∧ iteration (world_of (λ _, true) (cmResultSuccess, hollow_frame))
      16 16 2 (h264Buffer 16 16)
    = ([EvWait; EvLock; EvEncodeFrame (sourceFrame 16 16); EvUnlock],
       Some (h264Buffer 16 16)).
Proof.
  split; [split_and!; [reflexivity|discriminate|reflexivity|reflexivity]|].
  apply (empty_access_unit_is_not_sent
           (world_of (λ _, true) (cmResultSuccess, hollow_frame))
           16 16 2 (h264Buffer 16 16) hollow_frame);
    [reflexivity|discriminate|reflexivity|reflexivity].
Defined.

(** X14.  A pass never changes the size of the output buffer: whatever
    the encoder returns, the buffer that a pass leaves to the next one
    is as long as the one it found. *)
Theorem pass_keeps_buffer_size
    (w : World) (WIDTH HEIGHT : Z) (t : nat) (buf buf' : list Byte.byte) :
  (iteration w WIDTH HEIGHT t buf).2 = Some buf' →
  length buf' = length buf.
Proof.
  unfold iteration.
  destruct (EncodeFrame_at w (t + 2)%nat (sourceFrame WIDTH HEIGHT))
    as [result frameInfo]. unfold locked_block.
  case_bool_decide; [|by intros [= <-]].
  case_bool_decide; [by intros [= <-]|].
  destruct (layer_loop buf frameInfo) as [[mem total]|] eqn:Hloop; [|done].
  cbn. intros [= <-]. apply layer_loop_length in Hloop.
  rewrite length_take. lia.
Qed.

Lemma pass_keeps_buffer_size_witness :
  (iteration small_frame_world 16 16 2 (h264Buffer 16 16)).2
  = Some (ordered_concatenation small_frame ++ drop 9 (h264Buffer 16 16))
  ∧ length (ordered_concatenation small_frame ++ drop 9 (h264Buffer 16 16))
    = length (h264Buffer 16 16).
Proof.
  assert ((iteration small_frame_world 16 16 2 (h264Buffer 16 16)).2
          = Some (ordered_concatenation small_frame
                  ++ drop 9 (h264Buffer 16 16))) as Hpass by (by vm_compute).
  split; [exact Hpass|].
  exact (pass_keeps_buffer_size small_frame_world 16 16 2 _ _ Hpass).
Defined.

(** ** Sizes on the command line *)

(** X15.  [WIDTH] is the number [std::stoi] read from [--width] taken
    as a [uint32_t]: it is that number when it is not negative, and
    2^32 more when it is, so that a negative width is accepted as a
    width of at least 2^31.  The same holds for [HEIGHT]. *)
Theorem negative_size_wraps (args : gmap string string) (W H : Z) :
  WIDTH args = Some W → HEIGHT args = Some H →
  ∃ wd ht,
    stoi (at_key args "width") = Some wd
    ∧ stoi (at_key args "height") = Some ht
    ∧ 0 ≤ W < 2 ^ 32 ∧ 0 ≤ H < 2 ^ 32
    ∧ (0 ≤ wd → W = wd) ∧ (wd < 0 → W = wd + 2 ^ 32 ∧ 2 ^ 31 ≤ W)
    ∧ (0 ≤ ht → H = ht) ∧ (ht < 0 → H = ht + 2 ^ 32 ∧ 2 ^ 31 ≤ H).
Proof.
  unfold WIDTH, HEIGHT.
  destruct (stoi (at_key args "width")) as [wd|] eqn:Hwd; [|done].
  destruct (stoi (at_key args "height")) as [ht|] eqn:Hht; [|done].
  cbn. intros [= <-] [= <-].
  apply stoi_range in Hwd, Hht. unfold INT_MIN, INT_MAX in *.
  exists wd, ht. unfold wrap_uint32.
  assert (∀ z, - 2 ^ 31 ≤ z ≤ 2 ^ 31 - 1 →
            0 ≤ z `mod` 2 ^ 32 < 2 ^ 32
            ∧ (0 ≤ z → z `mod` 2 ^ 32 = z)
            ∧ (z < 0 → z `mod` 2 ^ 32 = z + 2 ^ 32
                       ∧ 2 ^ 31 ≤ z `mod` 2 ^ 32)) as Hmod.
  { intros z Hz. split; [by apply Z.mod_pos_bound|]. split.
    - intros Hpos. apply Z.mod_small. lia.
    - intros Hneg.
      assert (z `mod` 2 ^ 32 = z + 2 ^ 32) as ->; [|lia].
      symmetry. apply (Z.mod_unique _ _ (-1)); lia. }
  destruct (Hmod wd Hwd) as (? & ? & ?), (Hmod ht Hht) as (? & ? & ?).
  split_and!; (done || lia).
Qed.

Lemma negative_size_wraps_witness :
  (WIDTH (<["width" := "-16"]> args_16) = Some 4294967280
   ∧ HEIGHT (<["width" := "-16"]> args_16) = Some 16)
  ∧ ∃ wd ht,
      stoi (at_key (<["width" := "-16"]> args_16) "width") = Some wd
      ∧ stoi (at_key (<["width" := "-16"]> args_16) "height") = Some ht
      ∧ 0 ≤ 4294967280 < 2 ^ 32 ∧ 0 ≤ 16 < 2 ^ 32
      ∧ (0 ≤ wd → 4294967280 = wd)
      ∧ (wd < 0 → 4294967280 = wd + 2 ^ 32 ∧ 2 ^ 31 ≤ 4294967280)
      ∧ (0 ≤ ht → 16 = ht) ∧ (ht < 0 → 16 = ht + 2 ^ 32 ∧ 2 ^ 31 ≤ 16).
Proof.
  split; [split; by vm_compute|].
  apply (negative_size_wraps (<["width" := "-16"]> args_16) 4294967280 16);
    by vm_compute.
Defined.

(** ** What earlier frames leave in the buffer *)

Lemma wrap_int32_le z : 0 ≤ z → wrap_int32 z ≤ z.
Proof.
  intros Hz. unfold wrap_int32.
  pose proof (Z.mod_le (z + 2 ^ 31) (2 ^ 32)). lia.
Qed.

(** Two runs of a loop over an index that start in related states end
    in related states, or both in none. *)
Lemma foldl_option_rel {S B : Type} (f : S → B → option S)
    (R : S → S → Prop) (ks : list B) :
  (∀ s1 s2 k, R s1 s2 → option_Forall2 R (f s1 k) (f s2 k)) →
  ∀ s1 s2, R s1 s2 →
    option_Forall2 R (foldl (λ acc k, s ← acc; f s k) (Some s1) ks)
                     (foldl (λ acc k, s ← acc; f s k) (Some s2) ks).
Proof.
  intros Hstep. induction ks as [|k ks IH]; intros s1 s2 HR.
  - by constructor.
  - cbn [foldl mbind option_bind].
    destruct (Hstep s1 s2 k HR) as [s1' s2' HR'|].
    + by apply IH.
    + rewrite !foldl_none. constructor.
Qed.

Lemma layer_loop_same_prefix frameInfo buf1 buf2 :
  length buf1 = length buf2 →
  option_Forall2
    (λ st1 st2, st1.2 = st2.2 ∧ length st1.1 = length st2.1
                ∧ take (Z.to_nat st1.2) st1.1 = take (Z.to_nat st2.2) st2.1)
    (layer_loop buf1 frameInfo) (layer_loop buf2 frameInfo).
Proof.
  intros Hlen. unfold layer_loop.
  refine (foldl_option_rel _ _ _ _ (buf1, 0) (buf2, 0) _); [|done].
  intros [b1 T1] [b2 T2] k (HT & Hl & Hpre). cbn [fst snd] in *. subst T2.
  destruct (sLayerInfo_at frameInfo k) as [l|]; [|constructor]. cbn.
  destruct (sizeOfLayer l) as [n|]; [|constructor]. cbn.
  unfold memcpy. rewrite <- Hl.
  case_bool_decide as Hb; [|constructor]. cbn. constructor. cbn [fst snd].
  destruct Hb as (HT & Hn & Hsrc).
  split; [done|]. split.
  { rewrite !length_app, !length_take, !length_drop. lia. }
  pose proof (wrap_int32_le (T1 + n) ltac:(lia)) as Hle.
  assert (∀ b : list Byte.byte, length b = length b1 →
            take (Z.to_nat (wrap_int32 (T1 + n)))
              (take (Z.to_nat T1) b ++ take (Z.to_nat n) (pBsBuf l)
               ++ drop (Z.to_nat (T1 + n)) b)
            = take (Z.to_nat (wrap_int32 (T1 + n)))
                (take (Z.to_nat T1) b ++ take (Z.to_nat n) (pBsBuf l)))
    as Hcut.
  { intros b Hb. rewrite app_assoc. apply take_app_le.
    rewrite length_app, !length_take. lia. }
  rewrite (Hcut b1 eq_refl), (Hcut b2 (eq_sym Hl)). by rewrite Hpre.
Qed.

(** X16.  What a pass logs and sends does not depend on the bytes that
    earlier passes left in the output buffer, only on its length:
    nothing of an earlier frame is ever sent with a later one. *)
Theorem pass_independent_of_buffer_contents
    (w : World) (WIDTH HEIGHT : Z) (t : nat) (buf1 buf2 : list Byte.byte) :
  length buf1 = length buf2 →
  (iteration w WIDTH HEIGHT t buf1).1 = (iteration w WIDTH HEIGHT t buf2).1.
Proof.
  intros Hlen. unfold iteration.
  destruct (EncodeFrame_at w (t + 2)%nat (sourceFrame WIDTH HEIGHT))
    as [result frameInfo]. unfold locked_block.
  case_bool_decide; [|done]. case_bool_decide; [done|].
  destruct (layer_loop_same_prefix frameInfo buf1 buf2 Hlen)
    as [[b1 T1] [b2 T2] (HT & _ & Hpre)|]; [|done].
  cbn [fst snd] in *. subst T2. by rewrite Hpre.
Qed.

Lemma pass_independent_of_buffer_contents_witness :
  length (h264Buffer 16 16) = length (replicate 256 Byte.xff)
  ∧ (iteration small_frame_world 16 16 2 (h264Buffer 16 16)).1
    = (iteration small_frame_world 16 16 2 (replicate 256 Byte.xff)).1.
Proof.
  split; [reflexivity|].
  apply (pass_independent_of_buffer_contents small_frame_world 16 16 2
           (h264Buffer 16 16) (replicate 256 Byte.xff)).
  reflexivity.
Defined.

(** ** Verbosity *)

(** X17.  [--verbose] is a flag of presence: the trace level given to
    the encoder is [WELS_LOG_INFO] when the key is on the command line,
    with whatever value, and [WELS_LOG_QUIET] when it is not. *)
Theorem verbose_is_a_presence_flag (w : World) (fuel : nat) (logLevel : Z) :
  EvSetTraceLevel logLevel ∈ (main w fuel).1 →
  logLevel
  = if getCommandlineArguments w !! "verbose" is Some _
    then WELS_LOG_INFO else WELS_LOG_QUIET.
Proof.
  intros Hin.
  assert (∀ W H G, EvSetTraceLevel logLevel ∈ startup w W H G →
            logLevel = if getCommandlineArguments w !! "verbose" is Some _
                       then WELS_LOG_INFO else WELS_LOG_QUIET) as Hstart.
  { intros W H G Hs. unfold startup in Hs.
    repeat first [ rewrite elem_of_cons in Hs | rewrite elem_of_nil in Hs ].
    destruct Hs as [?|[?|[?|[?|[Hs|[?|[?|[]]]]]]]]; try discriminate.
    injection Hs as ->. unfold VERBOSE, count.
    by destruct (getCommandlineArguments w !! "verbose"). }
  pose proof (main_cases w fuel) as Hcases. cbn zeta in Hcases.
  destruct Hcases as [Hm|[Hm|(W & H & G & _ & _ & _ & Hcases)]];
    [rewrite Hm in Hin; cbn in Hin; not_in_trace Hin Hin..|].
  destruct Hcases
    as [[_ Hm]|[(_ & _ & Hm)|(_ & _ & [[_ Hm]|[_ Hcases]])]];
    [rewrite Hm in Hin; cbn in Hin; not_in_trace Hin Hin..| |].
  - rewrite Hm in Hin. cbn [fst] in Hin.
    apply elem_of_app in Hin as [Hin|Hin]; [by eapply Hstart|].
    not_in_trace Hin Hin.
  - destruct Hcases as [[_ Hm]|(cid & _ & Hm)];
      rewrite Hm in Hin; cbn [fst] in Hin; [by eapply Hstart|].
    apply elem_of_app in Hin as [Hin|Hin]; [by eapply Hstart|].
    apply elem_of_app in Hin as [Hin|Hin]; [not_in_trace Hin Hin|].
    apply elem_of_app in Hin as [Hin|Hin].
    + exfalso.
      assert (Forall (λ e, ∀ lvl, e ≠ EvSetTraceLevel lvl)
                (loop w W H fuel 0 (h264Buffer W H)).1) as Hall.
      { apply loop_Forall; [done|done|]. intros t buf.
        by apply iteration_Forall. }
      rewrite Forall_forall in Hall. by apply (Hall _ Hin logLevel).
    + destruct (loop w W H fuel 0 (h264Buffer W H)).2; cbn in Hin;
        not_in_trace Hin Hin.
Qed.

Lemma verbose_is_a_presence_flag_witness :
  EvSetTraceLevel WELS_LOG_INFO ∈ (main verbose_world 1).1
  ∧ WELS_LOG_INFO
    = if getCommandlineArguments verbose_world !! "verbose" is Some _
      then WELS_LOG_INFO else WELS_LOG_QUIET.
Proof.
  assert (EvSetTraceLevel WELS_LOG_INFO ∈ (main verbose_world 1).1) as Hin.
  { apply list_elem_of_In. vm_compute. do 4 right. left. reflexivity. }
  split; [exact Hin|].
  exact (verbose_is_a_presence_flag verbose_world 1 WELS_LOG_INFO Hin).
Defined.
